(** * vanDANA, [common/functions.py]: boundary evaluators, null space,
      stability monitor, truncation and history rotation.

    Shallow embedding of the Python module and the properties its
    specification states about it.

    Conventions of the embedding.
    - [round_decimals_down] is embedded on IEEE-754 binary64 values (the
      primitive floats) and unbounded integers, with the rounding of
      every operation and the exceptions of the arithmetic.
    - Everywhere else Python floats and NumPy scalars are read as exact
      real numbers ([R]); where a real number is handed to
      [round_decimals_down] it is rounded to the nearest binary64 value.
    - Python exceptions are the constructors of [exn]; a function that
      can raise returns a [result].
    - Objects that the FEniCS engine, SciPy or the MPI wrapper provide
      (mesh normals, [splev], the reduction facade, the vector backend)
      are parameters. *)

From Stdlib Require Import Floats.
From Stdlib Require Import Reals Lra Lia ZArith List String.
From stdpp Require Import base option list gmap strings.

Local Open Scope R_scope.

(** ** Exceptions and results *)

Inductive exn : Set :=
| AssertionError
| TypeError
| ValueError
| IndexError
| ZeroDivisionError
| OverflowError.

Inductive result (A : Type) : Type :=
| Ok (a : A)
| Raise (e : exn).

Arguments Ok {A} a.
Arguments Raise {A} e.

#[global] Instance result_ret : MRet result := fun _ a => Ok a.
#[global] Instance result_bind : MBind result := fun _ _ f m =>
  match m with
  | Ok a => f a
  | Raise e => Raise e
  end.

#[global] Instance result_fmap : FMap result := fun _ _ f m =>
  match m with
  | Ok a => Ok (f a)
  | Raise e => Raise e
  end.

Definition returns {A} (m : result A) : Prop := exists a, m = Ok a.
Definition raises {A} (m : result A) : Prop := exists e, m = Raise e.

(** ** Python values that can reach an argument position *)

Inductive pyobj : Type :=
| PyInt (z : Z)
| PyBool (b : bool)
| PyFloat (r : R)
| PyStr (s : string)
| PyNone.

(** [isinstance(o, int)], with the integer the object stands for:
    [bool] is a subclass of [int] in Python ([True == 1], [False == 0]). *)
Definition as_int (o : pyobj) : option Z :=
  match o with
  | PyInt z => Some z
  | PyBool b => Some (if b then 1 else 0)%Z
  | _ => None
  end.

Definition isinstance_int (o : pyobj) : bool :=
  match as_int o with Some _ => true | None => false end.

(** ** [round_decimals_down] (lines 227-237) *)

(** The function computes with one Python [float], a binary64 value,
    and with Python integers, which are unbounded.  [Prim2SF] gives the
    sign, mantissa and exponent of a binary64 value; the operations on
    [spec_float] round to nearest, ties to even. *)

(** The least magnitude that rounds to no finite binary64 value: from
    here on the conversion [int -> float] and the quotient [int / int]
    raise [OverflowError]. *)
Definition float_limit : Z := (2 ^ 1024 - 2 ^ 970)%Z.

(** An integer as an exact floating-point datum, before any rounding. *)
Definition integer (z : Z) : spec_float :=
  match z with
  | Z0 => S754_zero false
  | Zpos m => S754_finite false m 0
  | Zneg m => S754_finite true m 0
  end.

(** The conversion of the [int] operand in [float * int]: the nearest
    binary64 value, [OverflowError] ("int too large to convert to
    float") when there is none. *)
Definition nearest_float (z : Z) : float :=
  SF2Prim (binary_normalize prec emax z 0 false).
Definition float_of_int (z : Z) : result float :=
  if (float_limit <=? Z.abs z)%Z then Raise OverflowError
  else Ok (nearest_float z).

(** [math.floor] on a float: the largest integer not above it;
    [ValueError] for a NaN, [OverflowError] for an infinity. *)
Definition math_floor (x : float) : result Z :=
  match Prim2SF x with
  | S754_nan => Raise ValueError
  | S754_infinity _ => Raise OverflowError
  | S754_zero _ => Ok 0%Z
  | S754_finite s m e => Ok (Z.shiftl (if s then Zneg m else Zpos m) e)
  end.

(** [a / b] on two ints: the binary64 value nearest to the exact
    quotient; [ZeroDivisionError] for [b == 0], [OverflowError]
    ("integer division result too large for a float") when the quotient
    reaches [float_limit]. *)
Definition int_truediv (a b : Z) : result float :=
  if (b =? 0)%Z then Raise ZeroDivisionError
  else if (float_limit * Z.abs b <=? Z.abs a)%Z then Raise OverflowError
  else Ok (SF2Prim (SFdiv prec emax (integer a) (integer b))).

(** What the function returns: an [int] for [decimals == 0], a [float]
    otherwise. *)
Inductive pynum : Type :=
| NumInt (z : Z)
| NumFloat (f : float).

Definition round_decimals_down (number : float) (decimals : pyobj) : result pynum :=
  match as_int decimals with
  | None => Raise TypeError
  | Some d =>
      if (d <? 0)%Z then Raise ValueError
      else if (d =? 0)%Z then k ← math_floor number; mret (NumInt k)
      else
        let factor := (10 ^ d)%Z in
        f ← float_of_int factor;
        k ← math_floor (number * f)%float;
        q ← int_truediv k factor;
        mret (NumFloat q)
  end.

(** The number whose kind decides the outcome for a valid [decimals]:
    [number] itself for [decimals == 0], the product [number * factor]
    of line 237 otherwise. *)
Definition scaled (number : float) (d : Z) : float :=
  if (d =? 0)%Z then number else (number * nearest_float (10 ^ d))%float.

(** The keyword default of the signature, [decimals:int=8]. *)
Definition round_decimals_down_default (number : float) : result pynum :=
  round_decimals_down number (PyInt 8).

(** [math.isnan], [math.isinf] and [math.isfinite]. *)
Definition isnan (x : float) : bool :=
  match Prim2SF x with S754_nan => true | _ => false end.
Definition isinf (x : float) : bool :=
  match Prim2SF x with S754_infinity _ => true | _ => false end.
Definition isfinite (x : float) : bool := negb (isnan x) && negb (isinf x).

(** The real number a binary64 value stands for; an infinity or a NaN
    stands for none and is read as 0. *)
Definition B2R (x : float) : R :=
  match Prim2SF x with
  | S754_finite s m e => IZR (if s then Zneg m else Zpos m) * powerRZ 2 e
  | _ => 0
  end.

(** The binary64 value nearest to a real number, ties to even: the
    number is measured in units of the least subnormal, [2^-1074], and
    the integer part is rounded with the position of the remainder. *)
Definition binary64 (x : R) : float :=
  let y := Rabs x * IZR (2 ^ 1074) in
  let m := Zfloor y in
  let l :=
    if Req_dec_T y (IZR m) then loc_Exact
    else if Rlt_dec (y - IZR m) (1 / 2) then loc_Inexact Lt
    else if Req_dec_T (y - IZR m) (1 / 2) then loc_Inexact Eq
    else loc_Inexact Gt in
  SF2Prim (binary_round_aux prec emax (if Rlt_dec x 0 then true else false)
             m (-1074) l).

(** ** Collaborators of the boundary evaluators *)

(** A DOLFIN [Point] with its accessors [x()], [y()], [z()]. *)
Record Point : Type := mkPoint { p_x : R; p_y : R; p_z : R }.

(** The part of a mesh this module consults: the number of vertices of
    the process-local mesh and [Cell(mesh, index).normal(facet)].  The
    engine leaves [normal] without a meaning on a facet number the cell
    does not have; the embedding keeps it total. *)
Record Mesh : Type := mkMesh {
  num_vertices : nat;
  cell_normal : Z -> Z -> Point
}.

(** [ufc_cell]: the cell number and the local facet number, negative
    for an entity that is not a facet. *)
Record ufc_cell : Type := mkUfcCell { index : Z; local_facet : Z }.

(** [scipy.interpolate.splev(x, tck)] for a spline representation of
    type [tck]. *)
Class SplineEval (tck : Type) : Type := splev : R -> tck -> R.

(** The dictionary [self.param]: ["time"] holds an object with field [t],
    ["nm"] an object with field [cycle]. *)
Record Param (tck : Type) : Type := mkParam {
  time_t : R;
  period : R;
  nm_cycle : Z;
  Area : R;
  Vsc : R;
  Tsc : R;
  func : tck
}.

Arguments mkParam {tck}.
Arguments time_t {tck}.
Arguments period {tck}.
Arguments nm_cycle {tck}.
Arguments Area {tck}.
Arguments Vsc {tck}.
Arguments Tsc {tck}.
Arguments func {tck}.

(** A [UserExpression] instance: the two attributes [__init__] stores. *)
Record Expression (tck : Type) : Type := mkExpression {
  param : Param tck;
  mesh : Mesh
}.

Arguments mkExpression {tck}.
Arguments param {tck}.
Arguments mesh {tck}.

(** ** Evaluation monad: exceptions and the log of collaborator calls *)

Inductive call : Type :=
| CallCell (idx : Z)
| CallNormal (idx facet : Z)
| CallSplev (x : R).

Definition eval (A : Type) : Type := (list call * result A)%type.

#[global] Instance eval_ret : MRet eval := fun _ a => ([], Ok a).
#[global] Instance eval_bind : MBind eval := fun _ _ f m =>
  match m with
  | (log, Ok a) => let '(log', r) := f a in (log ++ log', r)
  | (log, Raise e) => (log, Raise e)
  end.

Definition outcome {A} (m : eval A) : result A := snd m.
Definition calls {A} (m : eval A) : list call := fst m.

(** [Cell(mesh, index)] *)
Definition new_Cell (m : Mesh) (idx : Z) : eval Z := ([CallCell idx], Ok idx).

(** [cell.normal(facet)] *)
Definition normal (m : Mesh) (cell facet : Z) : eval Point :=
  ([CallNormal cell facet], Ok (cell_normal m cell facet)).

(** [assert(b)] *)
Definition py_assert (b : bool) : eval unit :=
  ([], if b then Ok tt else Raise AssertionError).

(** [splev(x, func)] *)
Definition call_splev `{SplineEval tck} (x : R) (f : tck) : eval R :=
  ([CallSplev x], Ok (splev x f)).

(** [values[i] = v] on the array the engine passes in. *)
Definition setitem (values : list R) (i : nat) (v : R) : eval (list R) :=
  ([], if decide (i < length values)%nat then Ok (<[i:=v]> values)
       else Raise IndexError).

(** Number of entries of an array of the given shape. *)
Definition value_size (shape : list nat) : nat := foldr Nat.mul 1%nat shape.

(** ** The three boundary evaluators (lines 10-147) *)

Section BoundaryFlux.
Context {tck : Type} `{SplineEval tck}.

(** The argument both periodic evaluators pass to [splev]
    (lines 35 and 116): [t*Tsc - nm*period*Tsc]. *)
Definition waveform_arg (p : Param tck) : R :=
  time_t p * Tsc p - IZR (nm_cycle p) * period p * Tsc p.

(** WaveformSampler: the spline value the periodic evaluators use. *)
Definition sample (p : Param tck) : R := splev (waveform_arg p) (func p).

Definition Inflow_eval_cell (self : Expression tck)
    (values x : list R) (c : ufc_cell) : eval (list R) :=
  cell ← new_Cell (mesh self) (index c);
  _ ← py_assert (0 <=? local_facet c)%Z;
  n ← normal (mesh self) cell (local_facet c);
  s ← call_splev (waveform_arg (param self)) (func (param self));
  let val := (s / Area (param self)) / Vsc (param self) in
  values ← setitem values 0 (- p_x n * val);
  values ← setitem values 1 (- p_y n * val);
  values ← setitem values 2 (- p_z n * val);
  mret values.

Definition Inflow_value_shape : list nat := [3%nat].

Definition Outflow_eval_cell (self : Expression tck)
    (values x : list R) (c : ufc_cell) : eval (list R) :=
  cell ← new_Cell (mesh self) (index c);
  _ ← py_assert (0 <=? local_facet c)%Z;
  n ← normal (mesh self) cell (local_facet c);
  s ← call_splev (waveform_arg (param self)) (func (param self));
  let val := s * 133.322 / (1060 * Vsc (param self) * Vsc (param self)) in
  values ← setitem values 0 val;
  mret values.

Definition Outflow_value_shape : list nat := [].

Definition Temperature_balloon_eval_cell (self : Expression tck)
    (values x : list R) (c : ufc_cell) : eval (list R) :=
  cell ← new_Cell (mesh self) (index c);
  _ ← py_assert (0 <=? local_facet c)%Z;
  n ← normal (mesh self) cell (local_facet c);
  s ← call_splev (time_t (param self) * Tsc (param self)) (func (param self));
  let val := s in
  values ← setitem values 0 val;
  mret values.

Definition Temperature_balloon_value_shape : list nat := [].
End BoundaryFlux.

(** Two concrete waveforms, used to run the evaluators. *)

(** A spline with a single polynomial piece, given by its coefficients
    from the constant term upwards and evaluated by Horner's rule. *)
Record Polynomial : Type := mkPolynomial { coefficients : list R }.
Definition horner (cs : list R) (x : R) : R :=
  foldr (fun c acc => c + x * acc) 0 cs.
#[global] Instance Polynomial_splev : SplineEval Polynomial :=
  fun x f => horner (coefficients f) x.

(** A waveform that repeats with period 1 in its argument: the
    fractional part. *)
Inductive Sawtooth : Type := sawtooth.
#[global] Instance Sawtooth_splev : SplineEval Sawtooth :=
  fun x _ => x - IZR (Zfloor x).

(** ** [attach_nullspace] (lines 153-163) *)

(** A [GenericVector] is its list of entries; [Vector(v)] is the copy
    constructor of the engine and yields the same entries. *)
Definition Vector (v : list R) : list R := v.

(** [v.norm('l2')] *)
Definition sum_squares (v : list R) : R := foldr (fun a acc => a * a + acc) 0 v.
Definition norm_l2 (v : list R) : R := sqrt (sum_squares v).

(** The linear algebra backend behind a [GenericVector].  What it does
    with a write at an index outside the vector cannot be read from
    [functions.py]; it is a parameter: the outcome of writing [value] at
    the index [d] of the vector [x], for [d] outside of [x]. *)
Class VectorBackend : Type :=
  set_outside : list R -> nat -> R -> result (list R).

(** [Q.dofmap().set(x, value)]: writes [value] at every degree of
    freedom the dofmap lists, cell after cell (a degree of freedom shared
    by several cells is listed, and written, more than once). *)
Fixpoint dofmap_set `{VectorBackend} (dofs : list nat) (x : list R) (value : R)
  : result (list R) :=
  match dofs with
  | [] => Ok x
  | d :: dofs' =>
      x' ← (if decide (d < length x)%nat then Ok (<[d:=value]> x)
            else set_outside x d value);
      dofmap_set dofs' x' value
  end.

(** [null_vec *= 1.0 / null_vec.norm('l2')]: the quotient is a division
    of Python floats and raises for a zero divisor. *)
Definition py_div (a b : R) : result R :=
  if Req_dec_T b 0 then Raise ZeroDivisionError else Ok (a / b).

Definition imul (v : list R) (c : R) : list R := map (fun a => a * c) v.

Definition VectorSpaceBasis (vs : list (list R)) : list (list R) := vs.

(** The operator handle: the null space the solver sees
    ([set_nullspace]) and the Python attribute [null_space] that keeps
    the basis alive. *)
Record Operator : Type := mkOperator {
  solver_nullspace : option (list (list R));
  attr_null_space : option (list (list R))
}.

Definition set_nullspace (Aa : Operator) (ns : list (list R)) : Operator :=
  mkOperator (Some ns) (attr_null_space Aa).
Definition set_attr_null_space (Aa : Operator) (ns : list (list R)) : Operator :=
  mkOperator (solver_nullspace Aa) (Some ns).

(** [x_] is given by the entries of [x_.vector()], [Q] by the degrees of
    freedom of [Q.dofmap()].  Returns the operator after the call and the
    returned basis. *)
Definition attach_nullspace `{VectorBackend} (Ap : Operator) (x_ : list R)
    (Q : list nat) : result (Operator * list (list R)) :=
  let null_vec := Vector x_ in
  null_vec ← dofmap_set Q null_vec 1;
  c ← py_div 1 (norm_l2 null_vec);
  let null_vec := imul null_vec c in
  let Aa := Ap in
  let null_space := VectorSpaceBasis [null_vec] in
  let Aa := set_nullspace Aa null_space in
  let Aa := set_attr_null_space Aa null_space in
  mret (Aa, null_space).

(** ** [DENO] (lines 169-187) *)

(** A scalar field as the engine evaluates it at the vertices of the
    local mesh. *)
Definition ScalarField : Type := nat -> R.

(** [f.compute_vertex_values(mesh)]: one entry per vertex of the mesh. *)
Definition compute_vertex_values (f : ScalarField) (m : Mesh) : list R :=
  map f (seq 0 (num_vertices m)).

(** The velocity field [u_]: its mesh, [geometric_dimension()] and the
    components [sub(i)]. *)
Record VectorField : Type := mkVectorField {
  function_space_mesh : Mesh;
  geometric_dimension : nat;
  sub : nat -> ScalarField
}.

(** NumPy on one-dimensional arrays.  All arrays of [DENO] come from
    [compute_vertex_values] on one mesh, so the elementwise operations
    meet equal lengths. *)
Definition np_zeros (n : nat) : list R := repeat 0 n.
Definition np_abs (a : list R) : list R := map Rabs a.
Definition np_square (a : list R) : list R := map (fun v => v * v) a.
Definition np_sqrt (a : list R) : list R := map sqrt a.
Definition np_div (a b : list R) : list R := zip_with Rdiv a b.
Definition np_mul (a b : list R) : list R := zip_with Rmult a b.
Definition np_add (a b : list R) : list R := zip_with Rplus a b.

(** [np.max] raises [ValueError] on an array without entries. *)
Definition np_max (a : list R) : result R :=
  match a with
  | [] => Raise ValueError
  | v :: a' => Ok (fold_left Rmax a' v)
  end.

(** [for i in range(n): s = body(s, i)] with a body that can raise. *)
Fixpoint for_range_from {St : Type} (body : St -> nat -> result St)
    (start n : nat) (s : St) : result St :=
  match n with
  | O => Ok s
  | S n' => s' ← body s start; for_range_from body (S start) n' s'
  end.
Definition for_range {St : Type} (body : St -> nat -> result St) (n : nat) (s : St)
  : result St := for_range_from body 0 n s.

(** The reduction facade [Mpi]: a collective maps the scalars the
    processes contribute, in rank order, to the scalar each of them
    receives. *)
Class MpiFacade : Type := mkMpi {
  Mpi_Max : list R -> R;
  Mpi_Sum : list R -> R
}.

(** Modelled from the spec: the class behind [Mpi] is not part of
    [functions.py]; [Max] is the maximum and [Sum] the sum across all
    processes. *)
Definition list_max (xs : list R) : R :=
  match xs with
  | [] => 0
  | x :: xs' => fold_left Rmax xs' x
  end.
Definition list_sum (xs : list R) : R := foldr Rplus 0 xs.
Definition mpi_reductions : MpiFacade := mkMpi list_max list_sum.

(** Body of the loop over the components (lines 178-180); the state is
    [(DN_local, vertex_mag_u)]. *)
Definition DENO_body (u_ : VectorField) (m : Mesh) (vertex_values_h_f_X : list R)
    (st : R * list R) (i : nat) : result (R * list R) :=
  let '(DN_local, vertex_mag_u) := st in
  let vertex_values_u := compute_vertex_values (sub u_ i) m in
  mx ← np_max (np_abs (np_div vertex_values_u vertex_values_h_f_X));
  mret (DN_local + mx, np_add vertex_mag_u (np_square vertex_values_u)).

(** Lines 171-182: what one process computes before the reductions. *)
Definition DENO_local (u_ : VectorField) (h_f_X : ScalarField) : result (R * R) :=
  let DN_local := 0 in
  let m := function_space_mesh u_ in
  let vertex_values_h_f_X := compute_vertex_values h_f_X m in
  let vertex_mag_u := np_zeros (length vertex_values_h_f_X) in
  '(DN_local, vertex_mag_u) ←
    for_range (DENO_body u_ m vertex_values_h_f_X) (geometric_dimension u_)
      (DN_local, vertex_mag_u);
  NM_local ← np_max (np_mul (np_sqrt vertex_mag_u) vertex_values_h_f_X);
  mret (DN_local, NM_local).

(** Lines 171-182 on every process, in rank order. *)
Fixpoint DENO_locals (procs : list (VectorField * ScalarField))
  : result (list (R * R)) :=
  match procs with
  | [] => Ok []
  | p :: procs' =>
      l ← DENO_local (fst p) (snd p);
      ls ← DENO_locals procs';
      mret (l :: ls)
  end.

(** [DENO] run by every process of the communicator, each on its own
    part of the fields: lines 184-185 hand the local scalars to
    [Mpi.Max]; the pair [(DN, NM)] is what every process returns.  The
    reductions take place when every process has completed the lines
    171-182.  When these lines raise on some process, that process
    never enters [Mpi.Max] and no process returns: [DENO] then gives
    the exception of the first such process as the outcome of the run.
    What becomes of a process that waits in [Mpi.Max] for it is left
    to the MPI runtime and is not represented. *)
Definition DENO `{MpiFacade} (procs : list (VectorField * ScalarField))
  : result (R * R) :=
  locals ← DENO_locals procs;
  let DN := Mpi_Max (map fst locals) in
  let NM := Mpi_Max (map snd locals) in
  mret (DN, NM).

(** ** [update_variables] (lines 256-265) *)

(** [l[i]] on a Python list, for an index that is not negative. *)
Definition getitem {A : Type} (l : list A) (i : nat) : result A :=
  match l !! i with
  | Some a => Ok a
  | None => Raise IndexError
  end.

(** The three history buffers the function receives. *)
Inductive field : Set := velocity | pressure | temperature.

#[global] Instance field_eq_dec : EqDecision field.
Proof. solve_decision. Defined.

(** One line of the body: [target[dst].assign(target[src])]. *)
Record stmt : Set := mkStmt { target : field; dst : nat; src : nat }.

(** The body, line by line. *)
Definition update_variables_body : list stmt :=
  [ mkStmt velocity 2 1;
    mkStmt velocity 1 0;
    mkStmt pressure 2 1;
    mkStmt pressure 1 0;
    mkStmt temperature 3 2;
    mkStmt temperature 2 1;
    mkStmt temperature 1 0 ].

(** Destination indices of the assignments to one buffer, in the order
    of execution. *)
Definition destinations (f : field) (body : list stmt) : list nat :=
  map dst (filter (fun s => target s = f) body).

Section HistoryRotator.
(** [V]: the contents of a [Function] (its coefficient vector). *)
Context {V : Type}.

(** A buffer is a Python list of references to [Function] objects;
    the store gives the contents of every object. *)
Definition loc : Set := nat.
Definition store : Type := loc -> V.

(** [d.assign(s)] copies the contents of [s] into the object [d]. *)
Definition assign (d s : loc) (h : store) : store :=
  fun l => if decide (l = d) then h s else h l.

Definition buffer_of (u_ p_ T_ : list loc) (f : field) : list loc :=
  match f with
  | velocity => u_
  | pressure => p_
  | temperature => T_
  end.

Definition exec_stmt (u_ p_ T_ : list loc) (h : store) (s : stmt) : result store :=
  let buf := buffer_of u_ p_ T_ (target s) in
  d ← getitem buf (dst s);
  r ← getitem buf (src s);
  mret (assign d r h).

Fixpoint exec_body (u_ p_ T_ : list loc) (body : list stmt) (h : store)
  : result store :=
  match body with
  | [] => Ok h
  | s :: body' => h' ← exec_stmt u_ p_ T_ h s; exec_body u_ p_ T_ body' h'
  end.

Definition update_variables (u_ p_ T_ : list loc) (h : store) : result store :=
  exec_body u_ p_ T_ update_variables_body h.

(** The rotation applied again with no write to slot 0 in between. *)
Definition rotate_twice (u_ p_ T_ : list loc) (h : store) : result store :=
  h1 ← update_variables u_ p_ T_ h;
  update_variables u_ p_ T_ h1.

(** Contents of slot [k] of a buffer, and of all its slots. *)
Definition slot (h : store) (buf : list loc) (k : nat) : option V :=
  h <$> buf !! k.
Definition contents (h : store) (buf : list loc) : list V := map h buf.
End HistoryRotator.

(** Ten [Function] objects, each holding its own number as contents. *)
Definition history_store : @store nat := fun l => l.
Definition u_hist : list loc := [0; 1; 2]%nat.
Definition p_hist : list loc := [3; 4; 5]%nat.
Definition T_hist : list loc := [6; 7; 8; 9]%nat.

(** ** Concrete inputs *)

(** The clock of the solver moved to time [t] and cycle count [k]. *)
Definition with_clock {tck : Type} (p : Param tck) (t : R) (k : Z) : Param tck :=
  mkParam t (period p) k (Area p) (Vsc p) (Tsc p) (func p).

(** A mesh whose facets all have the outward normal [(1, 0, 0)]. *)
Definition unit_x_mesh : Mesh := mkMesh 1 (fun _ _ => mkPoint 1 0 0).

(** The cubic through the knots 0, 1, 2, 3 with the values 0, 10, 0, 10. *)
Definition scenario_waveform : Polynomial :=
  mkPolynomial [0; 100 / 3; -30; 20 / 3].

(** [Tsc = 1], [period = 3], [Area = 2], [Vsc = 5], [t = 1], [nm = 0]. *)
Definition scenario_param : Param Polynomial :=
  mkParam 1 3 0 2 5 1 scenario_waveform.
Definition scenario_expression : Expression Polynomial :=
  mkExpression scenario_param unit_x_mesh.

(** A periodic waveform sampled with [Tsc = 1/2] and [period = 2], so
    that one period of the clock spans one period of the waveform. *)
Definition sawtooth_param : Param Sawtooth := mkParam 0 2 0 1 1 (1 / 2) sawtooth.
Definition sawtooth_expression : Expression Sawtooth :=
  mkExpression sawtooth_param unit_x_mesh.

(** A facet of a cell and an entity that is not a facet. *)
Definition boundary_cell : ufc_cell := mkUfcCell 0 0.
Definition interior_cell : ufc_cell := mkUfcCell 0 (-1).

(** An operator with no null space attached yet, and a reference vector
    with non-zero entries on two degrees of freedom that the pressure
    space (owning degree of freedom 2) does not own. *)
Definition bare_operator : Operator := mkOperator None None.
Definition mixed_reference : list R := [2; 2; 0].
Definition last_dof_space : list nat := [2%nat].

(** A backend for the concrete vectors of this file.  No write below
    falls outside its vector, so it is never consulted. *)
Definition inert_backend : VectorBackend := fun x _ _ => Ok x.

(** ** The stability estimates in the words of the specification *)

(** The largest of [g 0], ..., [g n]. *)
Fixpoint max_upto (g : nat -> R) (n : nat) : R :=
  match n with
  | O => g O
  | S n' => Rmax (max_upto g n') (g n)
  end.

(** [g 0 + ... + g (n-1)]. *)
Fixpoint sum_below (g : nat -> R) (n : nat) : R :=
  match n with
  | O => 0
  | S n' => sum_below g n' + g n'
  end.

(** Maximum over the vertices of a mesh that has at least one. *)
Definition max_over_vertices (m : Mesh) (g : nat -> R) : R :=
  max_upto g (num_vertices m - 1).

(** Process-local maximum over vertices of [|u_i| / h(vertex)] for the
    component [i]. *)
Definition component_max (u_ : VectorField) (h : ScalarField) (i : nat) : R :=
  max_over_vertices (function_space_mesh u_) (fun v => Rabs (sub u_ i v) / h v).

(** Sum of the squares of the first [k] components at the vertex [v]. *)
Definition squares_sum (u_ : VectorField) (k v : nat) : R :=
  sum_below (fun i => sub u_ i v * sub u_ i v) k.

(** Sum over the spatial components of the process-local maximum over
    vertices of [|u_i| / h(vertex)]. *)
Definition courant_local (p : VectorField * ScalarField) : R :=
  let '(u_, h) := p in
  sum_below (component_max u_ h) (geometric_dimension u_).

(** Process-local maximum over vertices of [sqrt(sum_i u_i^2) * h(vertex)]. *)
Definition flow_scale_local (p : VectorField * ScalarField) : R :=
  let '(u_, h) := p in
  max_over_vertices (function_space_mesh u_)
    (fun v => sqrt (squares_sum u_ (geometric_dimension u_) v) * h v).

(** A process holds at least one vertex and its length scale is positive
    at every vertex. *)
Definition well_formed (p : VectorField * ScalarField) : Prop :=
  (0 < num_vertices (function_space_mesh (fst p)))%nat
  /\ forall v, (v < num_vertices (function_space_mesh (fst p)))%nat -> 0 < snd p v.

(** Two processes for a planar field: the first holds two vertices, the
    second one. *)
Definition two_vertex_mesh : Mesh := mkMesh 2 (fun _ _ => mkPoint 1 0 0).
Definition rank0_field : VectorField :=
  mkVectorField two_vertex_mesh 2
    (fun i v => match i, v with
                | O, O => 3 | O, _ => 0
                | _, O => 0 | _, _ => 4
                end).
Definition rank1_field : VectorField :=
  mkVectorField unit_x_mesh 2 (fun i v => match i with O => -2 | _ => 0 end).
Definition unit_length_scale : ScalarField := fun _ => 1.

(** The field of a process that holds no vertex of the mesh. *)
Definition vertexless_field : VectorField :=
  mkVectorField (mkMesh 0 (fun _ _ => mkPoint 1 0 0)) 3 (fun _ _ => 1).
Definition two_processes : list (VectorField * ScalarField) :=
  [(rank0_field, unit_length_scale); (rank1_field, unit_length_scale)].

(** ** [Calc_total_DOF] (lines 193-203) *)

(** A field as the communicator sees it:
    [i.vector().get_local().size] on every process, in rank order.
    [kwargs] lists the keyword arguments in the order of the call; the
    result is the dictionary [DOFS].  The counts pass through the
    reduction facade and are read as reals. *)
Definition group_dofs `{MpiFacade} (value : list (list nat)) : R :=
  foldl (fun dof i => dof + Mpi_Sum (map INR i)) 0 value.

Definition Calc_total_DOF `{MpiFacade} (kwargs : list (string * list (list nat)))
  : gmap string R :=
  foldl (fun DOFS kv => <[fst kv := group_dofs (snd kv)]> DOFS) ∅ kwargs.

(** ** [epsilon], [Qf], [PFE] (lines 212-224) *)

(** The UFL expressions are read at one point of the mesh: a tensor
    field as the matrix of its values there, [nabla_grad(u)] as the
    matrix [grad_u] with [grad_u i j] the derivative of component [j]
    along direction [i]; [d] is the geometric dimension. *)
Definition Matrix : Type := nat -> nat -> R.

(** [sym(A)]: the symmetric part. *)
Definition sym (A : Matrix) : Matrix := fun i j => (A i j + A j i) / 2.

(** [inner(A, B)]: the sum of the products of the entries. *)
Definition inner (d : nat) (A B : Matrix) : R :=
  sum_below (fun i => sum_below (fun j => A i j * B i j) d) d.

(** [c*A] for a scalar [c]. *)
Definition scale (c : R) (A : Matrix) : Matrix := fun i j => c * A i j.

Definition epsilon (grad_u : Matrix) : Matrix := sym grad_u.

Definition Qf (d : nat) (grad_u : Matrix) (Ec Re : R) : R :=
  inner d (scale ((2 * Ec) / Re) (epsilon grad_u)) grad_u.

(** [conditional(Tf_n >= 0.725, ..., 0.1)] at a point with the value
    [Tf_n]. *)
Definition PFE (Tf_n : R) : R :=
  if Rle_dec 0.725 Tf_n
  then (6.18 * Tf_n * Tf_n) - (7.39 * Tf_n) + 2.21
  else 0.1.

(** ** [calc_runtime_stats_timestep] (lines 240-253) *)

(** One line of the statistics file: the four numbers the f-string
    prints ([t], [tsp], [C_no_real], [local_Re]); their decimal
    formatting is not modelled.  A file handle is the list of the lines
    written to it. *)
Record LogLine : Type := mkLogLine {
  log_t : R;
  log_tsp : R;
  log_C_no_real : R;
  log_local_Re : R
}.

(** [h.write(line)] on [text_file_handles[i]]. *)
Definition write_line (handles : list (list LogLine)) (i : nat) (l : LogLine)
  : result (list (list LogLine)) :=
  f ← getitem handles i;
  mret (<[i := f ++ [l]]> handles).

(** The number a Python object stands for in arithmetic. *)
Definition as_number (o : pyobj) : option R :=
  match o with
  | PyInt z => Some (IZR z)
  | PyBool b => Some (if b then 1 else 0)
  | PyFloat r => Some r
  | _ => None
  end.

(** [o == True] for the result of [dict.get], which is [None] for a
    missing key: equality of numbers, so [1] and [1.0] compare equal to
    [True]. *)
Definition eq_True (o : option pyobj) : bool :=
  match o ≫= as_number with
  | Some r => if Req_dec_T r 1 then true else false
  | None => false
  end.

(** [o / DN] for the result of [dict.get] and a Python float [DN]. *)
Definition truediv (o : option pyobj) (DN : R) : result R :=
  match o ≫= as_number with
  | Some r => py_div r DN
  | None => Raise TypeError
  end.

(** The number a value returned by [round_decimals_down] stands for. *)
Definition as_float (r : pynum) : R :=
  match r with
  | NumInt z => IZR z
  | NumFloat f => B2R f
  end.

(** The function as the process of rank [rank] ([Mpi.get_rank()]) runs
    it; [procs] are the fields of all processes, [text_file_handles] the
    handles of this process.  Returns the new [tsp] and the handles
    after the call.  [Re] is given as the number [float(Re)].  The
    quotient of line 251 enters [round_decimals_down] as the binary64
    value nearest to it.  When [DENO] does not return, its outcome for
    the run stands for this process too. *)
Definition calc_runtime_stats_timestep `{MpiFacade} (rank : nat)
    (procs : list (VectorField * ScalarField)) (t tsp : R)
    (text_file_handles : list (list LogLine)) (Re : R)
    (time_control : gmap string pyobj) : result (R * list (list LogLine)) :=
  '(DN, NM) ← DENO procs;
  let C_no_real := DN * tsp in
  let local_Re := NM * Re in
  text_file_handles ←
    (if decide (rank = 0%nat)
     then write_line text_file_handles 1 (mkLogLine t tsp C_no_real local_Re)
     else Ok text_file_handles);
  if eq_True (time_control !! "variable_timestep")
  then
    q ← truediv (time_control !! "C_no") DN;
    r ← round_decimals_down (binary64 q) (PyInt 5);
    let tsp := as_float r in
    mret (tsp, text_file_handles)
  else mret (tsp, text_file_handles).

(** ** Coarser partitions of the mesh *)

(** The values of two processes put side by side: the vertices of the
    first process come first. *)
Definition join_scalar (n1 : nat) (f g : ScalarField) : ScalarField :=
  fun v => if decide (v < n1)%nat then f v else g (v - n1)%nat.

(** One process holding the vertices and field values of the processes
    [p] and [q]. *)
Definition join_processes (p q : VectorField * ScalarField)
  : VectorField * ScalarField :=
  let n1 := num_vertices (function_space_mesh (fst p)) in
  let n2 := num_vertices (function_space_mesh (fst q)) in
  (mkVectorField
     (mkMesh (n1 + n2) (cell_normal (function_space_mesh (fst p))))
     (geometric_dimension (fst p))
     (fun i => join_scalar n1 (sub (fst p) i) (sub (fst q) i)),
   join_scalar n1 (snd p) (snd q)).

(** The rotation applied [n] times with no write in between. *)
Fixpoint rotate_times {V : Type} (n : nat) (u_ p_ T_ : list loc) (h : @store V)
  : result (@store V) :=
  match n with
  | O => Ok h
  | S n' => h' ← update_variables u_ p_ T_ h; rotate_times n' u_ p_ T_ h'
  end.

(** The velocity field multiplied by the constant [c]. *)
Definition scale_velocity (c : R) (p : VectorField * ScalarField)
  : VectorField * ScalarField :=
  (mkVectorField (function_space_mesh (fst p)) (geometric_dimension (fst p))
     (fun i v => c * sub (fst p) i v),
   snd p).

(** Two processes holding one vertex each, with the velocities [(3, 0)]
    and [(0, 4)]. *)
Definition vertex_a : VectorField * ScalarField :=
  (mkVectorField unit_x_mesh 2 (fun i v => match i with O => 3 | _ => 0 end),
   unit_length_scale).
Definition vertex_b : VectorField * ScalarField :=
  (mkVectorField unit_x_mesh 2 (fun i v => match i with O => 0 | _ => 4 end),
   unit_length_scale).

(** * Theorems *)

(** ** Truncation *)

(** The arithmetic of lines 236-237 at sample operands. *)
Example binary64_arithmetic :
  float_of_int (10 ^ 22) = Ok 0x1.0f0cf064dd592p+73%float
  /\ float_of_int (10 ^ 23) = Ok 0x1.52d02c7e14af6p+76%float
  /\ float_of_int (2 ^ 1024 - 2 ^ 970 - 1) = Ok 0x1.fffffffffffffp+1023%float
  /\ float_of_int (2 ^ 1024 - 2 ^ 970) = Raise OverflowError
  /\ float_of_int (10 ^ 309) = Raise OverflowError
  /\ math_floor (-0x1.8p+0) = Ok (-2)%Z
  /\ math_floor 0x1.34a4584f4c6e7p+10 = Ok 1234%Z
  /\ math_floor infinity = Raise OverflowError
  /\ math_floor nan = Raise ValueError
  /\ int_truediv 1 3 = Ok 0x1.5555555555555p-2%float
  /\ int_truediv 5 100000 = Ok 0x1.a36e2eb1c432dp-15%float
  /\ int_truediv (-7) 2 = Ok (-0x1.cp+1)%float
  /\ int_truediv (2 ^ 1024) 1 = Raise OverflowError
  /\ int_truediv 1 0 = Raise ZeroDivisionError.
Proof. repeat split; vm_compute; reflexivity. Qed.

Lemma digits2_pos_bound (m : positive) :
  (Zpos m < 2 ^ Zpos (digits2_pos m))%Z.
Proof.
  induction m as [m IH|m IH|]; cbn [digits2_pos].
  - rewrite Pos2Z.inj_succ, Z.pow_succ_r by lia. lia.
  - rewrite Pos2Z.inj_succ, Z.pow_succ_r by lia. lia.
  - reflexivity.
Qed.

(** Mantissa and exponent of a finite binary64 value. *)
Lemma Prim2SF_finite_bounds (x : float) (s : bool) (m : positive) (e : Z) :
  Prim2SF x = S754_finite s m e -> (Zpos m < 2 ^ 53)%Z /\ (e <= 971)%Z.
Proof.
  intros Hx. pose proof (Prim2SF_valid x) as Hv. rewrite Hx in Hv.
  unfold valid_binary, SpecFloat.bounded, canonical_mantissa, fexp, SpecFloat.emin in Hv.
  apply andb_prop in Hv as [Hc He].
  apply Z.eqb_eq in Hc. apply Z.leb_le in He.
  unfold prec, emax in *. split; [|lia].
  pose proof (digits2_pos_bound m) as Hd.
  assert (Hle : (Zpos (digits2_pos m) <= 53)%Z) by lia.
  eapply Z.lt_le_trans; [exact Hd|].
  apply Z.pow_le_mono_r; lia.
Qed.

Lemma Z_div_abs_le (z k : Z) : (0 < k)%Z -> (Z.abs (z / k) <= Z.abs z)%Z.
Proof.
  intros Hk. pose proof (Z.div_mod z k ltac:(lia)) as Hdm.
  pose proof (Z.mod_pos_bound z k Hk) as Hm. nia.
Qed.

Lemma shiftl_abs_le (z e : Z) :
  (e <= 971)%Z -> (Z.abs (Z.shiftl z e) <= Z.abs z * 2 ^ 971)%Z.
Proof.
  intros He. destruct (Z.le_gt_cases 0 e) as [Hpos|Hneg].
  - rewrite Z.shiftl_mul_pow2 by exact Hpos. rewrite Z.abs_mul.
    assert (H1 : (0 < 2 ^ e <= 2 ^ 971)%Z).
    { split; [apply Z.pow_pos_nonneg; lia | apply Z.pow_le_mono_r; lia]. }
    rewrite (Z.abs_eq (2 ^ e)) by lia.
    apply Z.mul_le_mono_nonneg_l; lia.
  - rewrite Z.shiftl_div_pow2 by lia.
    assert (H1 : (0 < 2 ^ (- e))%Z) by (apply Z.pow_pos_nonneg; lia).
    pose proof (Z_div_abs_le z _ H1) as H2.
    assert (H3 : (1 <= 2 ^ 971)%Z) by (apply Z.lt_pred_le; reflexivity).
    nia.
Qed.

Lemma pow10_below_limit (d : Z) :
  (0 <= d <= 308)%Z -> (0 < 10 ^ d)%Z /\ (Z.abs (10 ^ d) < float_limit)%Z.
Proof.
  intros Hd.
  assert (Hpos : (0 < 10 ^ d)%Z) by (apply Z.pow_pos_nonneg; lia).
  split; [exact Hpos|]. rewrite Z.abs_eq by lia.
  apply Z.le_lt_trans with (10 ^ 308)%Z.
  - apply Z.pow_le_mono_r; lia.
  - vm_compute. reflexivity.
Qed.

Lemma pow10_above_limit (d : Z) :
  (308 < d)%Z -> (float_limit <= Z.abs (10 ^ d))%Z.
Proof.
  intros Hd.
  assert (Hpos : (0 < 10 ^ d)%Z) by (apply Z.pow_pos_nonneg; lia).
  rewrite Z.abs_eq by lia.
  apply Z.le_trans with (10 ^ 309)%Z.
  - vm_compute. discriminate.
  - apply Z.pow_le_mono_r; lia.
Qed.

(** The outcome of [math.floor] by the kind of its argument; a returned
    integer is below [2^1024] in magnitude. *)
Lemma math_floor_cases (x : float) :
  match math_floor x with
  | Ok k => isfinite x = true /\ (Z.abs k < 2 ^ 1024)%Z
  | Raise ValueError => isnan x = true
  | Raise OverflowError => isinf x = true
  | Raise _ => False
  end.
Proof.
  unfold math_floor, isfinite, isnan, isinf.
  destruct (Prim2SF x) as [s|s| |s m e] eqn:Hx; cbn [negb andb]; try reflexivity.
  - split; [reflexivity|]. vm_compute. reflexivity.
  - split; [reflexivity|].
    destruct (Prim2SF_finite_bounds x s m e Hx) as [Hm He].
    pose proof (shiftl_abs_le (if s then Z.neg m else Z.pos m) e He) as Hk.
    assert (Habs : Z.abs (if s then Z.neg m else Z.pos m) = Z.pos m)
      by (destruct s; reflexivity).
    rewrite Habs in Hk.
    eapply Z.le_lt_trans; [exact Hk|].
    change (2 ^ 1024)%Z with (2 ^ 53 * 2 ^ 971)%Z.
    apply Z.mul_lt_mono_pos_r; [vm_compute; reflexivity | exact Hm].
Qed.

(** The quotient of line 237 is within range whenever the floor is. *)
Lemma int_truediv_run (k d : Z) :
  (Z.abs k < 2 ^ 1024)%Z -> (0 < d)%Z ->
  int_truediv k (10 ^ d)
  = Ok (SF2Prim (SFdiv prec emax (integer k) (integer (10 ^ d)))).
Proof.
  intros Hk Hd. unfold int_truediv.
  assert (H10 : (10 <= 10 ^ d)%Z).
  { change 10%Z with (10 ^ 1)%Z at 1. apply Z.pow_le_mono_r; lia. }
  rewrite (proj2 (Z.eqb_neq (10 ^ d) 0)) by lia.
  rewrite (proj2 (Z.leb_gt (float_limit * Z.abs (10 ^ d)) (Z.abs k)));
    [reflexivity|].
  rewrite (Z.abs_eq (10 ^ d)) by lia.
  eapply Z.lt_le_trans; [exact Hk|].
  apply Z.le_trans with (float_limit * 10)%Z.
  - vm_compute. discriminate.
  - apply Z.mul_le_mono_nonneg_l; [vm_compute; discriminate | exact H10].
Qed.

Lemma round_decimals_down_cases (number : float) (decimals : pyobj) (d : Z) :
  as_int decimals = Some d -> (0 <= d)%Z ->
  match round_decimals_down number decimals with
  | Ok _ => (d <= 308)%Z /\ isfinite (scaled number d) = true
  | Raise ValueError => (d <= 308)%Z /\ isnan (scaled number d) = true
  | Raise OverflowError => (308 < d)%Z \/ isinf (scaled number d) = true
  | Raise _ => False
  end.
Proof.
  intros Hint Hd. unfold round_decimals_down, scaled. rewrite Hint.
  rewrite (proj2 (Z.ltb_ge d 0) Hd).
  destruct (Z.eqb_spec d 0) as [->|Hne].
  - pose proof (math_floor_cases number) as Hf.
    destruct (math_floor number) as [k|[]]; cbn [mbind result_bind mret result_ret];
      try contradiction.
    + split; [lia | apply Hf].
    + split; [lia | exact Hf].
    + right. exact Hf.
  - cbv zeta. unfold float_of_int.
    destruct (Z.le_gt_cases d 308) as [Hsmall|Hbig].
    + destruct (pow10_below_limit d ltac:(lia)) as [_ Hlim].
      rewrite (proj2 (Z.leb_gt float_limit (Z.abs (10 ^ d))) Hlim).
      cbn [mbind result_bind].
      pose proof (math_floor_cases (number * nearest_float (10 ^ d))) as Hf.
      destruct (math_floor (number * nearest_float (10 ^ d))) as [k|[]];
        cbn [mbind result_bind]; try contradiction.
      * destruct Hf as [Hfin Hk].
        rewrite (int_truediv_run k d Hk ltac:(lia)).
        cbn [mbind result_bind mret result_ret].
        split; assumption.
      * split; assumption.
      * right. exact Hf.
    + rewrite (proj2 (Z.leb_le float_limit (Z.abs (10 ^ d)))
                 (pow10_above_limit d Hbig)).
      left. exact Hbig.
Qed.

Lemma float_kinds (x : float) :
  (isfinite x = true <-> isnan x = false /\ isinf x = false)
  /\ (isnan x = true -> isinf x = false).
Proof.
  unfold isfinite, isnan, isinf.
  destruct (Prim2SF x); cbn [negb andb]; repeat split; auto; try discriminate;
    intros []; try discriminate.
Qed.

(** C6.  The claim fails on the code at [x = 4.9999999999999996e-05]
    and at [x = 1e304], both positive.  For the first, the product
    [x * 100000] rounds to exactly 5.0, and the function returns
    [5e-05], the binary64 value next above [x]; for the second, the
    product overflows to an infinity, of which [math.floor] raises
    [OverflowError]. *)
Theorem round_decimals_down_5_rounds_up :
  (0 <=? 0x1.a36e2eb1c432cp-15)%float = true
  /\ (0x1.a36e2eb1c432cp-15 * nearest_float 100000 =? 5)%float = true
  /\ round_decimals_down 0x1.a36e2eb1c432cp-15 (PyInt 5)
     = Ok (NumFloat 0x1.a36e2eb1c432dp-15)
  /\ (0x1.a36e2eb1c432cp-15 <? 0x1.a36e2eb1c432dp-15)%float = true
  /\ B2R 0x1.a36e2eb1c432cp-15 < B2R 0x1.a36e2eb1c432dp-15
  /\ (0 <=? 0x1.d2a1be4048f90p+1009)%float = true
  /\ isinf (scaled 0x1.d2a1be4048f90p+1009 5) = true
  /\ round_decimals_down 0x1.d2a1be4048f90p+1009 (PyInt 5) = Raise OverflowError.
Proof.
  split; [vm_compute; reflexivity|].
  split; [vm_compute; reflexivity|].
  split; [vm_compute; reflexivity|].
  split; [vm_compute; reflexivity|].
  split; [|split; [|split]; vm_compute; reflexivity].
  unfold B2R.
  replace (Prim2SF 0x1.a36e2eb1c432cp-15)
    with (S754_finite false 7378697629483820 (-67)) by (vm_compute; reflexivity).
  replace (Prim2SF 0x1.a36e2eb1c432dp-15)
    with (S754_finite false 7378697629483821 (-67)) by (vm_compute; reflexivity).
  apply Rmult_lt_compat_r.
  - apply powerRZ_lt. lra.
  - apply IZR_lt. reflexivity.
Qed.

(** C9, as stated, fails: [decimals = 309] is an integer and not
    negative, and the call raises [OverflowError], because [10 ** 309]
    has no binary64 value. *)
Lemma round_decimals_down_overflows :
  isinstance_int (PyInt 309) = true
  /\ as_int (PyInt 309) = Some 309%Z
  /\ (0 <= 309)%Z
  /\ round_decimals_down 0x1p-2 (PyInt 309) = Raise OverflowError
  /\ ~ returns (round_decimals_down 0x1p-2 (PyInt 309)).
Proof.
  assert (Hrun : round_decimals_down 0x1p-2 (PyInt 309) = Raise OverflowError)
    by (vm_compute; reflexivity).
  split; [reflexivity|]. split; [reflexivity|]. split; [lia|].
  split; [exact Hrun|].
  intros [v Hv]. rewrite Hrun in Hv. discriminate.
Qed.

(** C9, amended.  [round_decimals_down] raises [TypeError] exactly when
    [decimals] is not an [int] instance, and [ValueError] for every
    negative integer.  For an integer that is not negative it returns
    exactly when [decimals <= 308] and the scaled number ([number] for
    [decimals == 0], the binary64 product [number * 10**decimals]
    otherwise) is finite; it raises [ValueError] exactly when
    [decimals <= 308] and the scaled number is a NaN, and
    [OverflowError] exactly when [decimals > 308] or the scaled number
    is an infinity. *)
Theorem round_decimals_down_raises (number : float) (decimals : pyobj) :
  (round_decimals_down number decimals = Raise TypeError
     <-> isinstance_int decimals = false)
  /\ (forall d, as_int decimals = Some d -> (d < 0)%Z ->
      round_decimals_down number decimals = Raise ValueError)
  /\ (forall d, as_int decimals = Some d -> (0 <= d)%Z ->
      (returns (round_decimals_down number decimals)
         <-> (d <= 308)%Z /\ isfinite (scaled number d) = true)
      /\ (round_decimals_down number decimals = Raise ValueError
         <-> (d <= 308)%Z /\ isnan (scaled number d) = true)
      /\ (round_decimals_down number decimals = Raise OverflowError
         <-> (308 < d)%Z \/ isinf (scaled number d) = true)).
Proof.
  assert (Hneg : forall d, as_int decimals = Some d -> (d < 0)%Z ->
                 round_decimals_down number decimals = Raise ValueError).
  { intros d Hint Hd. unfold round_decimals_down. rewrite Hint.
    rewrite (proj2 (Z.ltb_lt d 0) Hd). reflexivity. }
  split; [|split; [exact Hneg|]].
  - unfold isinstance_int. destruct (as_int decimals) as [d|] eqn:Hint.
    + split; [|discriminate]. intros Hrun. exfalso.
      destruct (Z.lt_ge_cases d 0) as [Hd|Hd].
      * rewrite (Hneg d eq_refl Hd) in Hrun. discriminate.
      * pose proof (round_decimals_down_cases number decimals d Hint Hd) as Hc.
        rewrite Hrun in Hc. exact Hc.
    + split; [reflexivity|]. intros _.
      unfold round_decimals_down. rewrite Hint. reflexivity.
  - intros d Hint Hd.
    pose proof (round_decimals_down_cases number decimals d Hint Hd) as Hc.
    destruct (float_kinds (scaled number d)) as [Hfin Hnan].
    assert (Hexcl : isfinite (scaled number d) = true ->
                    isnan (scaled number d) = false
                    /\ isinf (scaled number d) = false) by apply Hfin.
    clear Hfin. unfold returns.
    destruct (round_decimals_down number decimals) as [v|[]]; try contradiction.
    + destruct Hc as [Hle Hf]. destruct (Hexcl Hf) as [Hn Hi].
      split; [|split]; split.
      * intros _. split; assumption.
      * intros _. exists v. reflexivity.
      * discriminate.
      * intros [_ Hn']. congruence.
      * discriminate.
      * intros [Hlt|Hi']; [lia | congruence].
    + destruct Hc as [Hle Hn]. pose proof (Hnan Hn) as Hi.
      split; [|split]; split.
      * intros [v Hv]. discriminate.
      * intros [_ Hf]. destruct (Hexcl Hf). congruence.
      * intros _. split; assumption.
      * reflexivity.
      * discriminate.
      * intros [Hlt|Hi']; [lia | congruence].
    + split; [|split]; split.
      * intros [v Hv]. discriminate.
      * intros [Hle Hf]. destruct (Hexcl Hf).
        destruct Hc as [Hlt|Hi]; [lia | congruence].
      * discriminate.
      * intros [Hle Hn]. pose proof (Hnan Hn).
        destruct Hc as [Hlt|Hi]; [lia | congruence].
      * intros _. exact Hc.
      * reflexivity.
Qed.

Lemma round_decimals_down_raises_witness :
  round_decimals_down 0x1p-2 (PyFloat 5) = Raise TypeError
  /\ round_decimals_down 0x1p-2 (PyInt (-1)) = Raise ValueError
  /\ returns (round_decimals_down 0x1p-2 (PyInt 5))
  /\ round_decimals_down infinity (PyInt 5) = Raise OverflowError
  /\ round_decimals_down nan (PyBool false) = Raise ValueError.
Proof.
  split; [|split; [|split; [|split]]].
  - destruct (round_decimals_down_raises 0x1p-2 (PyFloat 5)) as ([_ Htype] & _ & _).
    apply Htype. reflexivity.
  - destruct (round_decimals_down_raises 0x1p-2 (PyInt (-1))) as (_ & Hneg & _).
    apply (Hneg (-1)%Z); [reflexivity | lia].
  - destruct (round_decimals_down_raises 0x1p-2 (PyInt 5)) as (_ & _ & Hpos).
    destruct (Hpos 5%Z) as ([_ Hret] & _ & _); [reflexivity | lia |].
    apply Hret. split; [lia | vm_compute; reflexivity].
  - destruct (round_decimals_down_raises infinity (PyInt 5)) as (_ & _ & Hpos).
    destruct (Hpos 5%Z) as (_ & _ & [_ Hover]); [reflexivity | lia |].
    apply Hover. right. vm_compute. reflexivity.
  - destruct (round_decimals_down_raises nan (PyBool false)) as (_ & _ & Hpos).
    destruct (Hpos 0%Z) as (_ & [_ Hval] & _); [reflexivity | lia |].
    apply Hval. split; [lia | vm_compute; reflexivity].
Defined.

(** ** Boundary evaluators *)

Ltac eval_unfold :=
  unfold Inflow_eval_cell, Outflow_eval_cell, Temperature_balloon_eval_cell,
    new_Cell, py_assert, normal, call_splev, setitem, outcome, calls.

Ltac eval_run :=
  eval_unfold; cbn [mbind eval_bind mret eval_ret fst snd app length]; simpl.

Lemma facet_nonneg (c : ufc_cell) :
  (0 <= local_facet c)%Z -> (0 <=? local_facet c)%Z = true.
Proof. apply Z.leb_le. Qed.

Lemma facet_neg (c : ufc_cell) :
  (local_facet c < 0)%Z -> (0 <=? local_facet c)%Z = false.
Proof. apply Z.leb_gt. Qed.

Lemma Zfloor_half : Zfloor (1 / 2) = 0%Z.
Proof. apply Zfloor_eq. simpl. lra. Qed.

Lemma Zfloor_IZR (z : Z) : Zfloor (IZR z) = z.
Proof. apply Zfloor_eq. lra. Qed.

(** The waveform of the scenario takes the given values at the knots. *)
Lemma scenario_waveform_knots :
  splev 0 scenario_waveform = 0 /\ splev 1 scenario_waveform = 10
  /\ splev 2 scenario_waveform = 0 /\ splev 3 scenario_waveform = 10.
Proof. unfold splev, Polynomial_splev. simpl. repeat split; field. Qed.

(** The sawtooth repeats with period 1. *)
Lemma Sawtooth_periodic (x : R) (n : Z) :
  splev (x + IZR n) sawtooth = splev x sawtooth.
Proof.
  unfold splev, Sawtooth_splev.
  assert (Hfl : Zfloor (x + IZR n) = (Zfloor x + n)%Z).
  { apply Zfloor_eq. rewrite plus_IZR.
    pose proof (Zfloor_bound x). lra. }
  rewrite Hfl, plus_IZR. lra.
Qed.

(** C3.  On a cell with a local facet index that is not negative the
    Inflow evaluator fills the 3-component array with minus the facet's
    outward normal times [(sample / Area) / Vsc], where [sample] is the
    spline at [t*Tsc - nm*period*Tsc]; for a positive waveform value
    (and positive area and velocity scale) the factor is positive, so the
    vector points against the outward normal. *)
Theorem Inflow_eval_cell_value {tck : Type} `{SplineEval tck}
    (self : Expression tck) (values x : list R) (c : ufc_cell) :
  (0 <= local_facet c)%Z ->
  length values = value_size Inflow_value_shape ->
  let p := param self in
  let n := cell_normal (mesh self) (index c) (local_facet c) in
  let s := splev (time_t p * Tsc p - IZR (nm_cycle p) * period p * Tsc p) (func p) in
  let val := (s / Area p) / Vsc p in
  outcome (Inflow_eval_cell self values x c)
    = Ok [- (p_x n * val); - (p_y n * val); - (p_z n * val)]
  /\ (0 < s -> 0 < Area p -> 0 < Vsc p -> 0 < val).
Proof.
  intros Hf Hlen p n s val. split.
  - destruct values as [|a [|b [|d [|]]]]; try discriminate.
    eval_run. rewrite (facet_nonneg c Hf). simpl.
    do 2 f_equal; [|f_equal; [|f_equal]];
      subst val s n p; unfold waveform_arg; ring.
  - intros Hs Ha Hv. subst val.
    apply Rdiv_lt_0_compat; [apply Rdiv_lt_0_compat|]; assumption.
Qed.

(** The scenario of the specification: normal [(1, 0, 0)], waveform value
    10, [Area = 2], [Vsc = 5] give the vector [(-1, 0, 0)]. *)
Lemma Inflow_eval_cell_value_witness :
  (0 <= local_facet boundary_cell)%Z
  /\ outcome (Inflow_eval_cell scenario_expression [0; 0; 0] [] boundary_cell)
     = Ok [- (1 * (10 / 2 / 5)); - (0 * (10 / 2 / 5)); - (0 * (10 / 2 / 5))].
Proof.
  split; [simpl; lia|].
  destruct (Inflow_eval_cell_value scenario_expression [0; 0; 0] [] boundary_cell)
    as [Hv _]; [simpl; lia | reflexivity |].
  rewrite Hv. simpl. unfold splev, Polynomial_splev. simpl.
  do 2 f_equal; [|f_equal; [|f_equal]]; field.
Defined.

Example Inflow_scenario :
  outcome (Inflow_eval_cell scenario_expression [0; 0; 0] [] boundary_cell)
  = Ok [-1; 0; 0].
Proof.
  eval_run. unfold splev, Polynomial_splev, waveform_arg. simpl.
  do 2 f_equal; [|f_equal; [|f_equal]]; field.
Qed.

(** C4, as stated, fails: the Outflow evaluator asserts
    [local_facet >= 0] and calls [cell.normal]; on an entity that is not
    a facet the evaluation raises instead of giving a value, and on a
    facet the normal is computed. *)
Lemma Outflow_eval_cell_interior_fails :
  outcome (Outflow_eval_cell scenario_expression [0] [] interior_cell)
    = Raise AssertionError
  /\ In (CallNormal 0 0)
       (calls (Outflow_eval_cell scenario_expression [0] [] boundary_cell)).
Proof.
  split.
  - reflexivity.
  - eval_run. right. left. reflexivity.
Qed.

(** C4, amended.  The Outflow evaluator asserts [local_facet >= 0] and
    computes the facet normal on every evaluation that passes the
    assertion.  With a local facet index that is not negative it succeeds
    with the scalar [sample * 133.322 / (1060 * Vsc^2)], whatever the
    mesh, cell and facet are; with a negative one it raises
    [AssertionError]. *)
Theorem Outflow_eval_cell_value {tck : Type} `{SplineEval tck}
    (self : Expression tck) (values x : list R) (c : ufc_cell) :
  length values = value_size Outflow_value_shape ->
  let p := param self in
  let s := splev (time_t p * Tsc p - IZR (nm_cycle p) * period p * Tsc p) (func p) in
  ((0 <= local_facet c)%Z ->
     outcome (Outflow_eval_cell self values x c)
       = Ok [s * 133.322 / (1060 * (Vsc p * Vsc p))]
     /\ In (CallNormal (index c) (local_facet c))
          (calls (Outflow_eval_cell self values x c))
     /\ forall (m' : Mesh) (c' : ufc_cell), (0 <= local_facet c')%Z ->
          outcome (Outflow_eval_cell (mkExpression p m') values x c')
          = outcome (Outflow_eval_cell self values x c))
  /\ ((local_facet c < 0)%Z ->
     outcome (Outflow_eval_cell self values x c) = Raise AssertionError).
Proof.
  intros Hlen p s.
  destruct values as [|a [|]]; try discriminate.
  split.
  - intros Hf. split; [|split].
    + eval_run. rewrite (facet_nonneg c Hf). simpl.
      do 2 f_equal. subst s p. unfold waveform_arg. f_equal. ring.
    + eval_run. rewrite (facet_nonneg c Hf). simpl. right. left. reflexivity.
    + intros m' c' Hf'. eval_run.
      rewrite (facet_nonneg c Hf), (facet_nonneg c' Hf'). reflexivity.
  - intros Hf. eval_run. rewrite (facet_neg c Hf). reflexivity.
Qed.

Lemma Outflow_eval_cell_value_witness :
  length [0] = value_size Outflow_value_shape
  /\ outcome (Outflow_eval_cell scenario_expression [0] [] boundary_cell)
     = Ok [10 * 133.322 / (1060 * (5 * 5))].
Proof.
  split; [reflexivity|].
  destruct (Outflow_eval_cell_value scenario_expression [0] [] boundary_cell)
    as [Hv _]; [reflexivity|].
  destruct Hv as [Hv _]; [simpl; lia|].
  rewrite Hv. simpl. unfold splev, Polynomial_splev. simpl.
  do 2 f_equal. field.
Defined.

(** C10.  The Temperature_balloon evaluator returns [splev(t*Tsc)],
    which depends on the clock only, yet it asserts [local_facet >= 0]
    and computes the facet normal on every evaluation that passes the
    assertion; on a cell context with a negative local facet index the
    evaluation raises [AssertionError] and gives no value. *)
Theorem Temperature_balloon_eval_cell_facet {tck : Type} `{SplineEval tck}
    (self : Expression tck) (values x : list R) (c : ufc_cell) :
  ((local_facet c < 0)%Z ->
     outcome (Temperature_balloon_eval_cell self values x c) = Raise AssertionError
     /\ ~ returns (outcome (Temperature_balloon_eval_cell self values x c)))
  /\ ((0 <= local_facet c)%Z ->
      length values = value_size Temperature_balloon_value_shape ->
      outcome (Temperature_balloon_eval_cell self values x c)
        = Ok [splev (time_t (param self) * Tsc (param self)) (func (param self))]
      /\ In (CallNormal (index c) (local_facet c))
           (calls (Temperature_balloon_eval_cell self values x c))
      /\ forall (m' : Mesh) (c' : ufc_cell), (0 <= local_facet c')%Z ->
           outcome (Temperature_balloon_eval_cell
                      (mkExpression (param self) m') values x c')
           = outcome (Temperature_balloon_eval_cell self values x c)).
Proof.
  split.
  - intros Hf.
    assert (Hr : outcome (Temperature_balloon_eval_cell self values x c)
                 = Raise AssertionError).
    { eval_run. rewrite (facet_neg c Hf). reflexivity. }
    split; [exact Hr|]. rewrite Hr. intros [v Hv]. discriminate.
  - intros Hf Hlen.
    destruct values as [|a [|]]; try discriminate.
    split; [|split].
    + eval_run. rewrite (facet_nonneg c Hf). reflexivity.
    + eval_run. rewrite (facet_nonneg c Hf). simpl. right. left. reflexivity.
    + intros m' c' Hf'. eval_run.
      rewrite (facet_nonneg c Hf), (facet_nonneg c' Hf'). reflexivity.
Qed.

Lemma Temperature_balloon_eval_cell_facet_witness :
  (local_facet interior_cell < 0)%Z
  /\ outcome (Temperature_balloon_eval_cell scenario_expression [0] [] interior_cell)
     = Raise AssertionError.
Proof.
  split; [simpl; lia|].
  destruct (Temperature_balloon_eval_cell_facet
              scenario_expression [0] [] interior_cell) as [Hneg _].
  destruct Hneg as [Hr _]; [simpl; lia | exact Hr].
Defined.

(** ** Waveform sampling *)

(** C5, as stated, fails, also for a waveform that is periodic: with
    [Tsc = 1/2], [period = 2] and [k = 1] the sample at time
    [t + k*period*Tsc] with cycle count 0 is the waveform at [1/2], the
    sample at time [t] with cycle count [k] is the waveform at [-1]. *)
Lemma sample_scaled_shift_fails :
  sample (with_clock sawtooth_param
            (0 + IZR 1 * period sawtooth_param * Tsc sawtooth_param) 0)
  <> sample (with_clock sawtooth_param 0 1).
Proof.
  unfold sample, waveform_arg, splev, Sawtooth_splev. simpl.
  replace ((0 + 1 * 2 * (1 / 2)) * (1 / 2) - 0 * 2 * (1 / 2)) with (1 / 2) by field.
  replace (0 * (1 / 2) - 1 * 2 * (1 / 2)) with (IZR (-1)) by (simpl; field).
  rewrite Zfloor_half, Zfloor_IZR. lra.
Qed.

(** C5, amended.  For every waveform, time [t] and integer cycle count
    [k], sampling at time [t - k*period] with cycle count 0 yields the
    same value as sampling at time [t] with cycle count [k]; so the
    sample at time [t + k*period] with cycle count [k] is the sample at
    time [t] with cycle count 0. *)
Theorem sample_cycle_shift {tck : Type} `{SplineEval tck}
    (p : Param tck) (t : R) (k : Z) :
  sample (with_clock p (t - IZR k * period p) 0) = sample (with_clock p t k)
  /\ sample (with_clock p (t + IZR k * period p) k) = sample (with_clock p t 0).
Proof.
  unfold sample, waveform_arg. simpl.
  split; f_equal; ring.
Qed.

(** ** History rotation *)

Section HistoryRotatorFacts.
Context {V : Type}.
Implicit Types h : @store V.

Lemma assign_eq (d s : loc) h : assign d s h d = h s.
Proof. unfold assign. rewrite decide_True; reflexivity. Qed.

Lemma assign_ne (d s l : loc) h : l <> d -> assign d s h l = h l.
Proof.
  intros Hne. unfold assign. rewrite decide_False; [reflexivity | exact Hne].
Qed.

(** One rotation on buffers made of ten distinct objects. *)
Lemma update_variables_contents (u0 u1 u2 p0 p1 p2 T0 T1 T2 T3 : loc) h :
  NoDup ([u0; u1; u2] ++ [p0; p1; p2] ++ [T0; T1; T2; T3]) ->
  exists h',
    update_variables [u0; u1; u2] [p0; p1; p2] [T0; T1; T2; T3] h = Ok h'
    /\ contents h' [u0; u1; u2] = [h u0; h u0; h u1]
    /\ contents h' [p0; p1; p2] = [h p0; h p0; h p1]
    /\ contents h' [T0; T1; T2; T3] = [h T0; h T0; h T1; h T2].
Proof.
  intros Hnd. simpl in Hnd.
  repeat (apply NoDup_cons in Hnd as [? Hnd]).
  rewrite ?not_elem_of_cons in *.
  eexists. split; [reflexivity|].
  unfold contents. simpl.
  repeat split; repeat f_equal;
    repeat (rewrite assign_eq || (rewrite assign_ne by intuition congruence));
    reflexivity.
Qed.

Lemma slot_contents h (buf : list loc) (k : nat) :
  slot h buf k = contents h buf !! k.
Proof. unfold slot, contents. symmetry. apply list_lookup_fmap. Qed.
End HistoryRotatorFacts.

(** C7.  With 3 generations of velocity and of pressure and 4 of
    temperature, held by distinct objects, one rotation assigns to the
    destination slots 2, 1 (velocity, pressure) and 3, 2, 1
    (temperature) in this order, each from the slot just below, never to
    slot 0; afterwards slot [k >= 1] holds what slot [k-1] held before
    and slot 0 is unchanged. *)
Theorem update_variables_shift {V : Type} (u_ p_ T_ : list loc) (h : @store V) :
  length u_ = 3%nat -> length p_ = 3%nat -> length T_ = 4%nat ->
  NoDup (u_ ++ p_ ++ T_) ->
  destinations velocity update_variables_body = [2; 1]%nat
  /\ destinations pressure update_variables_body = [2; 1]%nat
  /\ destinations temperature update_variables_body = [3; 2; 1]%nat
  /\ Forall (fun s => dst s = S (src s)) update_variables_body
  /\ exists h',
       update_variables u_ p_ T_ h = Ok h'
       /\ forall f, let buf := buffer_of u_ p_ T_ f in
            slot h' buf 0 = slot h buf 0
            /\ forall k, (S k < length buf)%nat ->
                 slot h' buf (S k) = slot h buf k.
Proof.
  intros Hu Hp HT Hnd.
  do 3 (split; [reflexivity|]).
  split; [repeat constructor|].
  destruct u_ as [|u0 [|u1 [|u2 [|]]]]; try discriminate.
  destruct p_ as [|p0 [|p1 [|p2 [|]]]]; try discriminate.
  destruct T_ as [|T0 [|T1 [|T2 [|T3 [|]]]]]; try discriminate.
  destruct (update_variables_contents u0 u1 u2 p0 p1 p2 T0 T1 T2 T3 h Hnd)
    as (h' & Hrun & Hcu & Hcp & HcT).
  exists h'. split; [exact Hrun|].
  intros f buf. subst buf.
  destruct f; simpl buffer_of.
  - split; [rewrite !slot_contents, Hcu; reflexivity|].
    intros k Hk. rewrite !slot_contents, Hcu.
    destruct k as [|[|k]]; simpl in *; try reflexivity; lia.
  - split; [rewrite !slot_contents, Hcp; reflexivity|].
    intros k Hk. rewrite !slot_contents, Hcp.
    destruct k as [|[|k]]; simpl in *; try reflexivity; lia.
  - split; [rewrite !slot_contents, HcT; reflexivity|].
    intros k Hk. rewrite !slot_contents, HcT.
    destruct k as [|[|[|k]]]; simpl in *; try reflexivity; lia.
Qed.

Lemma history_fixture_NoDup : NoDup (u_hist ++ p_hist ++ T_hist).
Proof. apply (bool_decide_unpack _). vm_compute. reflexivity. Qed.

Lemma update_variables_shift_witness :
  (length u_hist = 3 /\ length p_hist = 3 /\ length T_hist = 4)%nat
  /\ exists h',
       update_variables u_hist p_hist T_hist history_store = Ok h'
       /\ forall f, let buf := buffer_of u_hist p_hist T_hist f in
            slot h' buf 0 = slot history_store buf 0
            /\ forall k, (S k < length buf)%nat ->
                 slot h' buf (S k) = slot history_store buf k.
Proof.
  split; [repeat split|].
  apply (update_variables_shift u_hist p_hist T_hist history_store);
    try reflexivity.
  exact history_fixture_NoDup.
Defined.

(** C8, as stated, fails: on the velocity buffer holding 0, 1, 2 one
    rotation leaves 0, 0, 1 and a second one, with no new slot-0 value,
    leaves 0, 0, 0: the second application changes the buffer, the slot-0
    value is duplicated and the value 1 is lost. *)
Lemma rotate_twice_not_idempotent :
  (fun h => contents h u_hist) <$> update_variables u_hist p_hist T_hist history_store
    = Ok [0; 0; 1]%nat
  /\ (fun h => contents h u_hist) <$> rotate_twice u_hist p_hist T_hist history_store
    = Ok [0; 0; 0]%nat
  /\ (fun h => contents h T_hist) <$> update_variables u_hist p_hist T_hist history_store
    = Ok [6; 6; 7; 8]%nat
  /\ (fun h => contents h T_hist) <$> rotate_twice u_hist p_hist T_hist history_store
    = Ok [6; 6; 6; 7]%nat.
Proof. repeat split. Qed.

(** C8, amended.  The rotation is not idempotent: applied twice with no
    new slot-0 value it leaves in slot [k] what slot [k-2] held at the
    start (slot 0 for [k < 2]); the outcome is that of one application
    exactly when slots 0 and 1 of velocity and of pressure, and slots 0,
    1 and 2 of temperature, held equal contents at the start. *)
Theorem rotate_twice_shift {V : Type} (u_ p_ T_ : list loc) (h : @store V) :
  length u_ = 3%nat -> length p_ = 3%nat -> length T_ = 4%nat ->
  NoDup (u_ ++ p_ ++ T_) ->
  exists h1 h2,
    update_variables u_ p_ T_ h = Ok h1
    /\ rotate_twice u_ p_ T_ h = Ok h2
    /\ (forall f k, let buf := buffer_of u_ p_ T_ f in
          (k < length buf)%nat -> slot h2 buf k = slot h buf (k - 2))
    /\ ((forall f, let buf := buffer_of u_ p_ T_ f in
           contents h2 buf = contents h1 buf)
        <-> slot h u_ 0 = slot h u_ 1
            /\ slot h p_ 0 = slot h p_ 1
            /\ slot h T_ 0 = slot h T_ 1
            /\ slot h T_ 1 = slot h T_ 2).
Proof.
  intros Hu Hp HT Hnd.
  destruct u_ as [|u0 [|u1 [|u2 [|]]]]; try discriminate.
  destruct p_ as [|p0 [|p1 [|p2 [|]]]]; try discriminate.
  destruct T_ as [|T0 [|T1 [|T2 [|T3 [|]]]]]; try discriminate.
  destruct (update_variables_contents u0 u1 u2 p0 p1 p2 T0 T1 T2 T3 h Hnd)
    as (h1 & Hrun1 & Hcu1 & Hcp1 & HcT1).
  destruct (update_variables_contents u0 u1 u2 p0 p1 p2 T0 T1 T2 T3 h1 Hnd)
    as (h2 & Hrun2 & Hcu2 & Hcp2 & HcT2).
  assert (Hu2 : contents h2 [u0; u1; u2] = [h u0; h u0; h u0]).
  { rewrite Hcu2. injection Hcu1 as -> -> _. reflexivity. }
  assert (Hp2 : contents h2 [p0; p1; p2] = [h p0; h p0; h p0]).
  { rewrite Hcp2. injection Hcp1 as -> -> _. reflexivity. }
  assert (HT2 : contents h2 [T0; T1; T2; T3] = [h T0; h T0; h T0; h T1]).
  { rewrite HcT2. injection HcT1 as -> -> -> _. reflexivity. }
  exists h1, h2. split; [exact Hrun1|]. split.
  { unfold rotate_twice. rewrite Hrun1. exact Hrun2. }
  split.
  - intros f k buf Hk. subst buf. rewrite slot_contents.
    destruct f; simpl buffer_of in *.
    + rewrite Hu2. destruct k as [|[|[|k]]]; simpl in *; try reflexivity; lia.
    + rewrite Hp2. destruct k as [|[|[|k]]]; simpl in *; try reflexivity; lia.
    + rewrite HT2. destruct k as [|[|[|[|k]]]]; simpl in *; try reflexivity; lia.
  - split.
    + intros Heq.
      pose proof (Heq velocity) as Hev. pose proof (Heq pressure) as Hep.
      pose proof (Heq temperature) as HeT.
      cbv beta zeta iota delta [buffer_of] in Hev, Hep, HeT.
      rewrite Hu2, Hcu1 in Hev. rewrite Hp2, Hcp1 in Hep. rewrite HT2, HcT1 in HeT.
      injection Hev. injection Hep. injection HeT. intros.
      unfold slot. simpl. repeat split; congruence.
    + intros (Hev & Hep & HeT1 & HeT2) f buf. subst buf.
      unfold slot in Hev, Hep, HeT1, HeT2. simpl in Hev, Hep, HeT1, HeT2.
      injection Hev. injection Hep. injection HeT1. injection HeT2. intros.
      destruct f; simpl buffer_of.
      * rewrite Hu2, Hcu1. congruence.
      * rewrite Hp2, Hcp1. congruence.
      * rewrite HT2, HcT1. congruence.
Qed.

Lemma rotate_twice_shift_witness :
  (length u_hist = 3 /\ length p_hist = 3 /\ length T_hist = 4)%nat
  /\ exists h1 h2,
       update_variables u_hist p_hist T_hist history_store = Ok h1
       /\ rotate_twice u_hist p_hist T_hist history_store = Ok h2
       /\ forall f k, let buf := buffer_of u_hist p_hist T_hist f in
            (k < length buf)%nat -> slot h2 buf k = slot history_store buf (k - 2).
Proof.
  split; [repeat split|].
  destruct (rotate_twice_shift u_hist p_hist T_hist history_store)
    as (h1 & h2 & H1 & H2 & Hs & _); try reflexivity.
  - exact history_fixture_NoDup.
  - exists h1, h2. repeat split; assumption.
Defined.

(** ** Null space *)

Lemma dofmap_set_spec `{VectorBackend} (Q : list nat) (value : R) (x : list R) :
  (forall d, d ∈ Q -> (d < length x)%nat) ->
  exists v,
    dofmap_set Q x value = Ok v
    /\ length v = length x
    /\ (forall d, d ∈ Q -> v !! d = Some value)
    /\ (forall i, i ∉ Q -> v !! i = x !! i).
Proof.
  revert x. induction Q as [|d Q IH]; intros x Hin.
  - exists x. split; [reflexivity|]. split; [reflexivity|]. split.
    + intros d Hd. inversion Hd.
    + reflexivity.
  - cbn [dofmap_set]. rewrite decide_True by (apply Hin; left).
    cbn [mbind result_bind].
    destruct (IH (<[d:=value]> x)) as (v & Hrun & Hlen & Hown & Hother).
    { intros d' Hd'. rewrite length_insert. apply Hin. right. exact Hd'. }
    exists v. rewrite length_insert in Hlen.
    split; [exact Hrun|]. split; [exact Hlen|]. split.
    + intros d' Hd'. destruct (decide (d' ∈ Q)) as [HQ|HQ].
      * apply Hown, HQ.
      * rewrite Hother by exact HQ.
        apply elem_of_cons in Hd' as [->|Hd']; [|contradiction].
        apply list_lookup_insert_eq, Hin. left.
    + intros i Hi. apply not_elem_of_cons in Hi as [Hne HQ].
      rewrite Hother by exact HQ.
      apply list_lookup_insert_ne. congruence.
Qed.

Lemma lookup_imul (v : list R) (c : R) (i : nat) :
  imul v c !! i = (fun a => a * c) <$> v !! i.
Proof. unfold imul. apply (list_lookup_fmap (fun a => a * c)). Qed.

Lemma sum_squares_nonneg (v : list R) : 0 <= sum_squares v.
Proof.
  induction v as [|a v IH]; simpl; [lra|].
  pose proof (Rle_0_sqr a) as Ha. unfold Rsqr in Ha. lra.
Qed.

Lemma sum_squares_pos (v : list R) (i : nat) (a : R) :
  v !! i = Some a -> a <> 0 -> 0 < sum_squares v.
Proof.
  revert i. induction v as [|b v IH]; intros i Hi Ha; [discriminate|].
  simpl. destruct i as [|i].
  - injection Hi as ->.
    pose proof (sum_squares_nonneg v).
    assert (0 < a * a) by (apply Rsqr_pos_lt in Ha; exact Ha). lra.
  - pose proof (IH i Hi Ha). pose proof (Rle_0_sqr b) as Hb.
    unfold Rsqr in Hb. lra.
Qed.

Lemma sum_squares_imul (v : list R) (c : R) :
  sum_squares (imul v c) = c * c * sum_squares v.
Proof.
  unfold imul. induction v as [|a v IH]; [simpl; ring|].
  change (sum_squares (map (fun a => a * c) (a :: v)))
    with ((a * c) * (a * c) + sum_squares (map (fun a => a * c) v)).
  rewrite IH. simpl. ring.
Qed.

Lemma norm_l2_normalized (v : list R) :
  0 < norm_l2 v -> norm_l2 (imul v (1 / norm_l2 v)) = 1.
Proof.
  intros HN. unfold norm_l2 at 1. rewrite sum_squares_imul.
  set (c := 1 / norm_l2 v).
  assert (Hc : 0 < c).
  { unfold c. apply Rdiv_lt_0_compat; lra. }
  rewrite sqrt_mult_alt by nra.
  rewrite sqrt_square by lra.
  fold (norm_l2 v). unfold c. field. lra.
Qed.

(** C1, as stated, fails: the vector starts as a copy of the reference
    vector, and the entries the pressure space does not own keep the
    reference values.  With the reference entries 2, 2, 0 and a pressure
    space owning the last degree of freedom the result is 2/3, 2/3, 1/3. *)
Lemma attach_nullspace_keeps_reference :
  snd <$> @attach_nullspace inert_backend bare_operator mixed_reference
            last_dof_space
    = Ok [[2 * (1 / 3); 2 * (1 / 3); 1 * (1 / 3)]]
  /\ 2 * (1 / 3) <> 0.
Proof.
  split; [|lra].
  unfold attach_nullspace, mixed_reference, last_dof_space, Vector. simpl.
  assert (HN : norm_l2 [2; 2; 1] = 3).
  { unfold norm_l2. simpl.
    replace (2 * 2 + (2 * 2 + (1 * 1 + 0))) with (3 * 3) by ring.
    apply sqrt_square. lra. }
  rewrite HN. unfold py_div.
  destruct (Req_dec_T 3 0) as [H30|_]; [lra|]. reflexivity.
Qed.

(** C1, amended.  For every reference vector and every pressure space
    that owns at least one degree of freedom of it, the vector built by
    [attach_nullspace] has one common factor [1/N], [N > 0], such that
    every degree of freedom owned by the pressure space holds [1.0/N],
    every other one holds the entry of the reference vector divided by
    [N] (0.0 where that entry is 0.0), and its l2 norm is 1. *)
Theorem attach_nullspace_vector `{VectorBackend} (Ap : Operator) (x_ : list R)
    (Q : list nat) :
  (forall d, d ∈ Q -> (d < length x_)%nat) ->
  Q <> [] ->
  exists (N : R) (v : list R),
    0 < N
    /\ attach_nullspace Ap x_ Q = Ok (mkOperator (Some [v]) (Some [v]), [v])
    /\ length v = length x_
    /\ (forall d, d ∈ Q -> v !! d = Some (1 * (1 / N)))
    /\ (forall i, i ∉ Q -> v !! i = (fun a => a * (1 / N)) <$> x_ !! i)
    /\ norm_l2 v = 1.
Proof.
  intros Hin HQ.
  destruct (dofmap_set_spec Q 1 x_ Hin) as (w & Hrun & Hlen & Hown & Hother).
  assert (HN : 0 < norm_l2 w).
  { destruct Q as [|d Q]; [congruence|].
    apply sqrt_lt_R0, (sum_squares_pos w d 1); [|lra].
    apply Hown. left. }
  exists (norm_l2 w), (imul w (1 / norm_l2 w)).
  split; [exact HN|]. split; [|split; [|split; [|split]]].
  - unfold attach_nullspace, Vector. rewrite Hrun. simpl.
    unfold py_div. destruct (Req_dec_T (norm_l2 w) 0) as [H0|_]; [lra|].
    reflexivity.
  - unfold imul. rewrite length_map. exact Hlen.
  - intros d Hd. rewrite lookup_imul, (Hown d Hd). reflexivity.
  - intros i Hi. rewrite lookup_imul, (Hother i Hi). reflexivity.
  - apply norm_l2_normalized, HN.
Qed.

Lemma attach_nullspace_vector_witness :
  last_dof_space <> []
  /\ exists (N : R) (v : list R),
       0 < N
       /\ @attach_nullspace inert_backend bare_operator mixed_reference
            last_dof_space
          = Ok (mkOperator (Some [v]) (Some [v]), [v])
       /\ norm_l2 v = 1.
Proof.
  split; [discriminate|].
  destruct (@attach_nullspace_vector inert_backend bare_operator mixed_reference
              last_dof_space)
    as (N & v & HN & Hrun & _ & _ & _ & Hnorm).
  - intros d Hd. apply list_elem_of_singleton in Hd as ->. simpl. lia.
  - discriminate.
  - exists N, v. repeat split; assumption.
Defined.

(** A reference vector without non-zero entries and a pressure space
    without degrees of freedom: the norm is zero and the division
    raises. *)
Lemma attach_nullspace_degenerate `{VectorBackend} (Ap : Operator) (n : nat) :
  attach_nullspace Ap (repeat 0 n) [] = Raise ZeroDivisionError.
Proof.
  unfold attach_nullspace, Vector. simpl.
  assert (HS : sum_squares (repeat 0 n) = 0).
  { induction n as [|n IH]; simpl; [reflexivity | rewrite IH; ring]. }
  unfold norm_l2. rewrite HS, sqrt_0. unfold py_div.
  destruct (Req_dec_T 0 0) as [_|Hne]; [reflexivity | congruence].
Qed.

(** ** Stability monitor *)

Lemma zip_with_map_same {A B C D : Type} (f : B -> C -> D) (g : A -> B)
    (k : A -> C) (l : list A) :
  zip_with f (map g l) (map k l) = map (fun a => f (g a) (k a)) l.
Proof. induction l as [|a l IH]; simpl; [reflexivity | rewrite IH; reflexivity]. Qed.

Lemma np_max_snoc (l : list R) (m y : R) :
  np_max l = Ok m -> np_max (l ++ [y]) = Ok (Rmax m y).
Proof.
  destruct l as [|a l]; [discriminate|].
  simpl. intros [= <-]. rewrite fold_left_app. reflexivity.
Qed.

Lemma np_max_map_seq (g : nat -> R) (n : nat) :
  np_max (map g (seq 0 (S n))) = Ok (max_upto g n).
Proof.
  induction n as [|n IH]; [reflexivity|].
  rewrite seq_S, map_app. simpl map at 2.
  rewrite (np_max_snoc _ _ _ IH). reflexivity.
Qed.

Lemma max_upto_ext (g k : nat -> R) (n : nat) :
  (forall v, (v <= n)%nat -> g v = k v) -> max_upto g n = max_upto k n.
Proof.
  induction n as [|n IH]; intros Hext; simpl.
  - apply Hext. lia.
  - rewrite IH by (intros v Hv; apply Hext; lia).
    rewrite (Hext (S n)) by lia. reflexivity.
Qed.

Lemma max_upto_upper (g : nat -> R) (n v : nat) :
  (v <= n)%nat -> g v <= max_upto g n.
Proof.
  induction n as [|n IH]; intros Hv; simpl.
  - replace v with 0%nat by lia. lra.
  - destruct (decide (v = S n)) as [->|Hne].
    + apply Rmax_r.
    + eapply Rle_trans; [apply IH; lia | apply Rmax_l].
Qed.

Lemma max_upto_attained (g : nat -> R) (n : nat) :
  exists v, (v <= n)%nat /\ max_upto g n = g v.
Proof.
  induction n as [|n (v & Hv & IH)]; simpl.
  - exists 0%nat. split; [lia | reflexivity].
  - destruct (Rmax_case (max_upto g n) (g (S n)) (fun r => r = max_upto g n \/ r = g (S n)))
      as [Hm|Hm]; [left; reflexivity | right; reflexivity | |].
    + exists v. split; [lia | rewrite Hm; exact IH].
    + exists (S n). split; [lia | exact Hm].
Qed.

Lemma fold_left_Rmax_init (xs : list R) (a : R) : a <= fold_left Rmax xs a.
Proof.
  revert a. induction xs as [|b xs IH]; intros a; simpl; [lra|].
  eapply Rle_trans; [apply (Rmax_l a b) | apply IH].
Qed.

Lemma fold_left_Rmax_upper (xs : list R) (a x : R) :
  x ∈ xs -> x <= fold_left Rmax xs a.
Proof.
  revert a. induction xs as [|b xs IH]; intros a Hx; [inversion Hx|].
  simpl. apply elem_of_cons in Hx as [->|Hx].
  - eapply Rle_trans; [apply (Rmax_r a b) | apply fold_left_Rmax_init].
  - apply IH, Hx.
Qed.

Lemma list_max_upper (xs : list R) (x : R) : x ∈ xs -> x <= list_max xs.
Proof.
  destruct xs as [|a xs]; [intros Hx; inversion Hx|].
  simpl. intros Hx. apply elem_of_cons in Hx as [->|Hx].
  - apply fold_left_Rmax_init.
  - apply fold_left_Rmax_upper, Hx.
Qed.

Lemma list_max_attained (xs : list R) : xs <> [] -> list_max xs ∈ xs.
Proof.
  destruct xs as [|a xs]; [congruence|]. intros _.
  simpl. revert a. induction xs as [|b xs IH]; intros a; simpl; [left|].
  destruct (Rmax_case a b (fun r => r = a \/ r = b)) as [Hm|Hm];
    [left; reflexivity | right; reflexivity | |].
  - rewrite Hm. specialize (IH a).
    apply elem_of_cons in IH as [->|IH]; [left | right; right; exact IH].
  - rewrite Hm. right. apply IH.
Qed.

Lemma repeat_map_seq {A : Type} (a : A) (start n : nat) :
  repeat a n = map (fun _ => a) (seq start n).
Proof.
  revert start. induction n as [|n IH]; intros start; simpl;
    [reflexivity | rewrite (IH (S start)); reflexivity].
Qed.

Section DENO_one_process.
Variables (u_ : VectorField) (h : ScalarField).
Hypothesis Hwf : well_formed (u_, h).

Local Abbreviation m := (function_space_mesh u_).
Local Abbreviation verts := (seq 0 (num_vertices (function_space_mesh u_))).

Lemma DENO_body_run (DN : R) (k : nat) :
  DENO_body u_ m (compute_vertex_values h m) (DN, map (squares_sum u_ k) verts) k
  = Ok (DN + component_max u_ h k, map (squares_sum u_ (S k)) verts).
Proof.
  destruct Hwf as [Hnv Hpos]. simpl in Hnv, Hpos.
  unfold DENO_body, compute_vertex_values, np_abs, np_div, np_add, np_square.
  rewrite !zip_with_map_same, !map_map, zip_with_map_same.
  unfold component_max, max_over_vertices.
  destruct (num_vertices m) as [|n] eqn:Hn; [lia|].
  rewrite np_max_map_seq. simpl.
  replace (n - 0)%nat with n by lia.
  do 3 f_equal. apply max_upto_ext. intros v Hv.
  unfold Rdiv. rewrite Rabs_mult, Rabs_inv.
  rewrite (Rabs_pos_eq (h v)) by (apply Rlt_le, Hpos; lia).
  reflexivity.
Qed.

Lemma DENO_loop_run (k start : nat) :
  for_range_from (DENO_body u_ m (compute_vertex_values h m)) start k
    (sum_below (component_max u_ h) start, map (squares_sum u_ start) verts)
  = Ok (sum_below (component_max u_ h) (start + k),
        map (squares_sum u_ (start + k)) verts).
Proof.
  revert start. induction k as [|k IH]; intros start.
  - rewrite Nat.add_0_r. reflexivity.
  - cbn [for_range_from]. rewrite DENO_body_run.
    cbn [mbind result_bind].
    change (sum_below (component_max u_ h) start + component_max u_ h start)
      with (sum_below (component_max u_ h) (S start)).
    rewrite IH. rewrite Nat.add_succ_r. reflexivity.
Qed.

(** Lines 171-182 compute the two estimates of the specification. *)
Lemma DENO_local_run :
  DENO_local u_ h = Ok (courant_local (u_, h), flow_scale_local (u_, h)).
Proof.
  unfold DENO_local, for_range.
  assert (Hz : np_zeros (length (compute_vertex_values h m))
               = map (squares_sum u_ 0) verts).
  { unfold compute_vertex_values, np_zeros.
    rewrite length_map, length_seq. apply repeat_map_seq. }
  rewrite Hz.
  change 0 with (sum_below (component_max u_ h) 0) at 1.
  rewrite DENO_loop_run. cbn [mbind result_bind Nat.add].
  unfold np_mul, np_sqrt, compute_vertex_values.
  rewrite map_map, zip_with_map_same.
  destruct Hwf as [Hnv _]. simpl in Hnv.
  unfold courant_local, flow_scale_local, max_over_vertices.
  destruct (num_vertices m) as [|n] eqn:Hn; [lia|].
  rewrite np_max_map_seq. cbn [mbind result_bind mret result_ret].
  replace (S n - 1)%nat with n by lia. reflexivity.
Qed.
End DENO_one_process.

Lemma DENO_locals_run (procs : list (VectorField * ScalarField)) :
  Forall well_formed procs ->
  DENO_locals procs
  = Ok (map (fun p => (courant_local p, flow_scale_local p)) procs).
Proof.
  induction 1 as [|[u_ h] procs Hwf _ IH]; [reflexivity|].
  cbn [DENO_locals fst snd]. rewrite (DENO_local_run u_ h Hwf).
  cbn [mbind result_bind]. rewrite IH. reflexivity.
Qed.

(** Whatever the facade is, the pair returned is its [Max] applied to
    the local estimates. *)
Lemma DENO_run (Mpi : MpiFacade) (procs : list (VectorField * ScalarField)) :
  Forall well_formed procs ->
  @DENO Mpi procs
  = Ok (Mpi_Max (map courant_local procs), Mpi_Max (map flow_scale_local procs)).
Proof.
  intros Hwf. unfold DENO. rewrite (DENO_locals_run procs Hwf).
  cbn [mbind result_bind mret result_ret]. rewrite !map_map. reflexivity.
Qed.

(** C2.  On processes that each hold a vertex and a positive length
    scale, [DENO] hands to [Mpi.Max], and to no other reduction, the
    local Courant estimate (the sum over components of the maximum over
    vertices of [|u_i| / h]) and the local flow scale (the maximum over
    vertices of [sqrt(sum_i u_i^2) * h]); with [Max] the cross-process
    maximum the pair returned consists of the largest local estimates. *)
Theorem DENO_estimates (procs : list (VectorField * ScalarField)) :
  Forall well_formed procs ->
  (forall Mpi : MpiFacade,
     @DENO Mpi procs
     = Ok (Mpi_Max (map courant_local procs),
           Mpi_Max (map flow_scale_local procs)))
  /\ (forall (Max Sum Sum' : list R -> R),
        @DENO (mkMpi Max Sum) procs = @DENO (mkMpi Max Sum') procs)
  /\ let DN := list_max (map courant_local procs) in
     let NM := list_max (map flow_scale_local procs) in
     @DENO mpi_reductions procs = Ok (DN, NM)
     /\ (forall p, p ∈ procs -> courant_local p <= DN /\ flow_scale_local p <= NM)
     /\ (procs <> [] ->
         (exists p, p ∈ procs /\ DN = courant_local p)
         /\ (exists p, p ∈ procs /\ NM = flow_scale_local p)).
Proof.
  intros Hwf.
  pose proof (fun Mpi => DENO_run Mpi procs Hwf) as Hrun.
  split; [exact Hrun|]. split.
  { intros Max Sum Sum'. rewrite !Hrun. reflexivity. }
  intros DN NM. split; [apply Hrun|]. split.
  - intros p Hp. split; apply list_max_upper.
    + apply (list_elem_of_fmap_2 courant_local), Hp.
    + apply (list_elem_of_fmap_2 flow_scale_local), Hp.
  - intros Hne. split.
    + assert (Hin : DN ∈ map courant_local procs).
      { apply list_max_attained. destruct procs; [congruence | discriminate]. }
      apply (list_elem_of_fmap_1 courant_local) in Hin as (p & Heq & Hp).
      exists p. split; assumption.
    + assert (Hin : NM ∈ map flow_scale_local procs).
      { apply list_max_attained. destruct procs; [congruence | discriminate]. }
      apply (list_elem_of_fmap_1 flow_scale_local) in Hin as (p & Heq & Hp).
      exists p. split; assumption.
Qed.

Lemma two_processes_well_formed : Forall well_formed two_processes.
Proof.
  repeat constructor; simpl; try lia; intros; unfold unit_length_scale; lra.
Qed.

Lemma DENO_estimates_witness :
  Forall well_formed two_processes
  /\ @DENO mpi_reductions two_processes
     = Ok (list_max (map courant_local two_processes),
           list_max (map flow_scale_local two_processes)).
Proof.
  split; [exact two_processes_well_formed|].
  apply (DENO_estimates two_processes two_processes_well_formed).
Defined.

Lemma sqrt_of_square (a b : R) : 0 <= b -> a = b * b -> sqrt a = b.
Proof. intros Hb ->. apply sqrt_square, Hb. Qed.


(** * Further properties of the module *)

(** ** Truncation: the integer part *)


Lemma powerRZ_2_neg (p : positive) : powerRZ 2 (Z.neg p) = / IZR (2 ^ Z.pos p).
Proof.
  cbn [powerRZ]. rewrite pow_IZR, positive_nat_Z. reflexivity.
Qed.




Example round_decimals_down_negative :
  round_decimals_down (-0x1.4p+1) (PyInt 0) = Ok (NumInt (-3))
  /\ round_decimals_down (-0x1.3333333333333p-3) (PyInt 1)
     = Ok (NumFloat (-0x1.999999999999ap-3)).
Proof. split; vm_compute; reflexivity. Qed.

(** ** Stability monitor: bounds *)

Lemma sum_below_nonneg (g : nat -> R) (n : nat) :
  (forall i, (i < n)%nat -> 0 <= g i) -> 0 <= sum_below g n.
Proof.
  induction n as [|n IH]; intros Hg; simpl; [lra|].
  pose proof (IH ltac:(intros i Hi; apply Hg; lia)).
  pose proof (Hg n ltac:(lia)). lra.
Qed.

Lemma sum_below_le (f g : nat -> R) (n : nat) :
  (forall i, (i < n)%nat -> f i <= g i) -> sum_below f n <= sum_below g n.
Proof.
  induction n as [|n IH]; intros Hfg; simpl; [lra|].
  pose proof (IH ltac:(intros i Hi; apply Hfg; lia)).
  pose proof (Hfg n ltac:(lia)). lra.
Qed.

Lemma sum_below_term (g : nat -> R) (n i : nat) :
  (forall j, (j < n)%nat -> 0 <= g j) -> (i < n)%nat -> g i <= sum_below g n.
Proof.
  induction n as [|n IH]; intros Hg Hi; [lia|]. simpl.
  pose proof (sum_below_nonneg g n ltac:(intros j Hj; apply Hg; lia)) as Hs.
  pose proof (Hg n ltac:(lia)) as Hn.
  destruct (decide (i = n)) as [->|Hne]; [lra|].
  pose proof (IH ltac:(intros j Hj; apply Hg; lia) ltac:(lia)). lra.
Qed.

(** The Euclidean norm is at most the sum of the absolute values. *)
Lemma sqrt_sum_squares_le (a : nat -> R) (n : nat) :
  sqrt (sum_below (fun i => a i * a i) n) <= sum_below (fun i => Rabs (a i)) n.
Proof.
  induction n as [|n IH]; simpl; [rewrite sqrt_0; lra|].
  set (s := sum_below (fun i => a i * a i) n) in *.
  set (t := sum_below (fun i => Rabs (a i)) n) in *.
  assert (Hs : 0 <= s).
  { apply sum_below_nonneg. intros i _.
    pose proof (Rle_0_sqr (a i)) as Hq. unfold Rsqr in Hq. exact Hq. }
  pose proof (sqrt_pos s) as Hsq. pose proof (Rabs_pos (a n)) as Han.
  assert (Haa : a n * a n = Rabs (a n) * Rabs (a n)).
  { pose proof (Rsqr_abs (a n)) as Hq. unfold Rsqr in Hq. exact Hq. }
  apply Rsqr_incr_0_var; [|lra].
  unfold Rsqr. rewrite sqrt_sqrt by (rewrite Haa; nra).
  pose proof (sqrt_sqrt s Hs). nra.
Qed.

Lemma component_max_upper (u_ : VectorField) (h : ScalarField) (i v : nat) :
  (v < num_vertices (function_space_mesh u_))%nat ->
  Rabs (sub u_ i v) / h v <= component_max u_ h i.
Proof.
  intros Hv. unfold component_max, max_over_vertices.
  apply (max_upto_upper (fun v => Rabs (sub u_ i v) / h v)). lia.
Qed.

Lemma ratio_nonneg (a b : R) : 0 < b -> 0 <= Rabs a / b.
Proof.
  intros Hb. apply Rmult_le_pos; [apply Rabs_pos|].
  apply Rlt_le, Rinv_0_lt_compat, Hb.
Qed.

Lemma component_max_nonneg (u_ : VectorField) (h : ScalarField) (i : nat) :
  well_formed (u_, h) -> 0 <= component_max u_ h i.
Proof.
  intros [Hnv Hpos]. simpl in Hnv, Hpos.
  eapply Rle_trans; [|apply (component_max_upper u_ h i 0 Hnv)].
  apply ratio_nonneg, Hpos, Hnv.
Qed.

(** At every vertex of a process the local estimates dominate the
    component ratios, the Euclidean speed over [h] and the speed times
    [h]. *)
Lemma local_estimates_dominate (u_ : VectorField) (h : ScalarField) (v : nat) :
  well_formed (u_, h) ->
  (v < num_vertices (function_space_mesh u_))%nat ->
  (forall i, (i < geometric_dimension u_)%nat ->
     Rabs (sub u_ i v) / h v <= courant_local (u_, h))
  /\ sqrt (squares_sum u_ (geometric_dimension u_) v) / h v <= courant_local (u_, h)
  /\ sqrt (squares_sum u_ (geometric_dimension u_) v) * h v <= flow_scale_local (u_, h).
Proof.
  intros Hwf Hv. pose proof Hwf as [Hnv Hpos]. simpl in Hnv, Hpos.
  pose proof (Hpos v Hv) as Hh.
  assert (Hinv : 0 < / h v) by (apply Rinv_0_lt_compat, Hh).
  split; [|split].
  - intros i Hi. unfold courant_local.
    eapply Rle_trans; [apply (component_max_upper u_ h i v Hv)|].
    apply (sum_below_term (component_max u_ h)); [|exact Hi].
    intros j _. apply component_max_nonneg, Hwf.
  - unfold courant_local, squares_sum.
    apply Rle_trans
      with (sum_below (fun i => Rabs (sub u_ i v) / h v) (geometric_dimension u_)).
    + apply Rle_trans
        with (sum_below (fun i => Rabs (sub u_ i v)) (geometric_dimension u_) / h v).
      * unfold Rdiv. apply Rmult_le_compat_r; [lra|].
        apply (sqrt_sum_squares_le (fun i => sub u_ i v)).
      * apply Req_le. generalize (geometric_dimension u_). intros n.
        induction n as [|n IH]; simpl; [unfold Rdiv; ring|].
        rewrite <- IH. unfold Rdiv. ring.
    + apply sum_below_le. intros i _. apply component_max_upper, Hv.
  - unfold flow_scale_local, max_over_vertices.
    apply (max_upto_upper
             (fun v => sqrt (squares_sum u_ (geometric_dimension u_) v) * h v)).
    lia.
Qed.

(** X3.  The estimates are conservative: at every vertex of every
    process the returned Courant term [DN] is at least each component
    ratio [|u_i|/h] and at least the Euclidean speed over [h], and the
    returned flow scale [NM] is at least the speed times [h]; neither is
    negative. *)
Theorem DENO_upper_bounds (procs : list (VectorField * ScalarField)) :
  Forall well_formed procs ->
  exists DN NM,
    @DENO mpi_reductions procs = Ok (DN, NM)
    /\ 0 <= DN /\ 0 <= NM
    /\ forall u_ h v,
         (u_, h) ∈ procs ->
         (v < num_vertices (function_space_mesh u_))%nat ->
         (forall i, (i < geometric_dimension u_)%nat ->
            Rabs (sub u_ i v) / h v <= DN)
         /\ sqrt (squares_sum u_ (geometric_dimension u_) v) / h v <= DN
         /\ sqrt (squares_sum u_ (geometric_dimension u_) v) * h v <= NM.
Proof.
  intros Hwf. do 2 eexists.
  split; [apply (DENO_run mpi_reductions procs Hwf)|].
  cbn [Mpi_Max mpi_reductions].
  assert (Hdom : forall u_ h v,
             (u_, h) ∈ procs ->
             (v < num_vertices (function_space_mesh u_))%nat ->
             (forall i, (i < geometric_dimension u_)%nat ->
                Rabs (sub u_ i v) / h v <= list_max (map courant_local procs))
             /\ sqrt (squares_sum u_ (geometric_dimension u_) v) / h v
                <= list_max (map courant_local procs)
             /\ sqrt (squares_sum u_ (geometric_dimension u_) v) * h v
                <= list_max (map flow_scale_local procs)).
  { intros u_ h v Hin Hv.
    assert (Hw : well_formed (u_, h)).
    { rewrite Forall_forall in Hwf. apply Hwf, Hin. }
    destruct (local_estimates_dominate u_ h v Hw Hv) as (H1 & H2 & H3).
    assert (Hc : courant_local (u_, h) <= list_max (map courant_local procs)).
    { apply list_max_upper, (list_elem_of_fmap_2 courant_local), Hin. }
    assert (Hf : flow_scale_local (u_, h) <= list_max (map flow_scale_local procs)).
    { apply list_max_upper, (list_elem_of_fmap_2 flow_scale_local), Hin. }
    split; [|split].
    - intros i Hi. eapply Rle_trans; [apply (H1 i Hi) | exact Hc].
    - eapply Rle_trans; [exact H2 | exact Hc].
    - eapply Rle_trans; [exact H3 | exact Hf]. }
  split; [|split; [|exact Hdom]].
  - destruct procs as [|[u_ h] procs]; [simpl; lra|].
    assert (Hw : well_formed (u_, h)) by (inversion Hwf; assumption).
    destruct (Hdom u_ h 0%nat) as (_ & H2 & _); [left | apply Hw |].
    eapply Rle_trans; [|exact H2].
    apply Rmult_le_pos; [apply sqrt_pos|].
    apply Rlt_le, Rinv_0_lt_compat. apply Hw. apply Hw.
  - destruct procs as [|[u_ h] procs]; [simpl; lra|].
    assert (Hw : well_formed (u_, h)) by (inversion Hwf; assumption).
    destruct (Hdom u_ h 0%nat) as (_ & _ & H3); [left | apply Hw |].
    eapply Rle_trans; [|exact H3].
    apply Rmult_le_pos; [apply sqrt_pos|].
    apply Rlt_le. apply Hw. apply Hw.
Qed.

Lemma DENO_upper_bounds_witness :
  Forall well_formed two_processes
  /\ exists DN NM,
       @DENO mpi_reductions two_processes = Ok (DN, NM) /\ 0 <= DN /\ 0 <= NM.
Proof.
  split; [exact two_processes_well_formed|].
  destruct (DENO_upper_bounds two_processes two_processes_well_formed)
    as (DN & NM & Hrun & HDN & HNM & _).
  exists DN, NM. repeat split; assumption.
Defined.

(** ** Stability monitor: partitions *)

Lemma max_upto_join (F f g : nat -> R) (a b : nat) :
  (forall v, (v <= a)%nat -> F v = f v) ->
  (forall v, F (S a + v)%nat = g v) ->
  max_upto F (S a + b) = Rmax (max_upto f a) (max_upto g b).
Proof.
  intros Hf Hg. induction b as [|b IH].
  - rewrite Nat.add_0_r. cbn [max_upto].
    rewrite (max_upto_ext F f a Hf).
    replace (S a) with (S a + 0)%nat at 1 by lia. rewrite Hg. reflexivity.
  - replace (S a + S b)%nat with (S (S a + b)) by lia.
    cbn [max_upto]. rewrite IH.
    replace (S (S a + b)) with (S a + S b)%nat by lia. rewrite Hg.
    symmetry. apply Rmax_assoc.
Qed.

Lemma join_scalar_left (n1 : nat) (f g : ScalarField) (v : nat) :
  (v < n1)%nat -> join_scalar n1 f g v = f v.
Proof. intros Hv. unfold join_scalar. rewrite decide_True; [reflexivity | exact Hv]. Qed.

Lemma join_scalar_right (n1 : nat) (f g : ScalarField) (v : nat) :
  join_scalar n1 f g (n1 + v)%nat = g v.
Proof.
  unfold join_scalar. rewrite decide_False by lia. f_equal. lia.
Qed.

Section JoinProcesses.
Variables (u1 u2 : VectorField) (h1 h2 : ScalarField).
Hypothesis Hp : well_formed (u1, h1).
Hypothesis Hq : well_formed (u2, h2).
Hypothesis Hdim : geometric_dimension u1 = geometric_dimension u2.

Local Abbreviation n1 := (num_vertices (function_space_mesh u1)).
Local Abbreviation joined := (join_processes (u1, h1) (u2, h2)).

Lemma join_processes_well_formed : well_formed joined.
Proof.
  destruct Hp as [Hn1 Hh1], Hq as [Hn2 Hh2]. simpl in *.
  split; simpl; [lia|]. intros v Hv.
  unfold join_scalar. destruct (decide (v < n1)%nat).
  - apply Hh1. assumption.
  - apply Hh2. lia.
Qed.

(** A maximum over the vertices of the joined process is the larger of
    the maxima over the two parts. *)
Lemma max_over_vertices_join (F f g : nat -> R) :
  (forall v, (v < n1)%nat -> F v = f v) ->
  (forall v, F (n1 + v)%nat = g v) ->
  max_over_vertices (function_space_mesh (fst joined)) F
  = Rmax (max_over_vertices (function_space_mesh u1) f)
         (max_over_vertices (function_space_mesh u2) g).
Proof.
  destruct Hp as [Hn1 _], Hq as [Hn2 _]. simpl in *.
  intros Hf Hg. unfold max_over_vertices. simpl.
  destruct n1 as [|a]; [lia|].
  destruct (num_vertices (function_space_mesh u2)) as [|b]; [lia|].
  replace (S a + S b - 1)%nat with (S a + b)%nat by lia.
  replace (S a - 1)%nat with a by lia. replace (S b - 1)%nat with b by lia.
  apply max_upto_join; [intros v Hv; apply Hf; lia | exact Hg].
Qed.

Lemma squares_sum_join_left (k v : nat) :
  (v < n1)%nat -> squares_sum (fst joined) k v = squares_sum u1 k v.
Proof.
  intros Hv. unfold squares_sum. simpl.
  induction k as [|k IH]; simpl; [reflexivity|].
  rewrite IH, !join_scalar_left by exact Hv. reflexivity.
Qed.

Lemma squares_sum_join_right (k v : nat) :
  squares_sum (fst joined) k (n1 + v) = squares_sum u2 k v.
Proof.
  unfold squares_sum. simpl.
  induction k as [|k IH]; simpl; [reflexivity|].
  rewrite IH, !join_scalar_right. reflexivity.
Qed.

Lemma component_max_join (i : nat) :
  component_max (fst joined) (snd joined) i
  = Rmax (component_max u1 h1 i) (component_max u2 h2 i).
Proof.
  unfold component_max. apply max_over_vertices_join.
  - intros v Hv. simpl. rewrite !join_scalar_left by exact Hv. reflexivity.
  - intros v. simpl. rewrite !join_scalar_right. reflexivity.
Qed.

Lemma flow_scale_local_join :
  flow_scale_local joined
  = Rmax (flow_scale_local (u1, h1)) (flow_scale_local (u2, h2)).
Proof.
  unfold flow_scale_local at 2 3.
  change (flow_scale_local joined)
    with (max_over_vertices (function_space_mesh (fst joined))
            (fun v => sqrt (squares_sum (fst joined) (geometric_dimension u1) v)
                      * snd joined v)).
  apply max_over_vertices_join.
  - intros v Hv. rewrite squares_sum_join_left by exact Hv.
    simpl. rewrite join_scalar_left by exact Hv. reflexivity.
  - intros v. rewrite squares_sum_join_right, Hdim.
    simpl. rewrite join_scalar_right. reflexivity.
Qed.

Lemma courant_local_join :
  Rmax (courant_local (u1, h1)) (courant_local (u2, h2)) <= courant_local joined.
Proof.
  unfold courant_local at 1 2.
  change (courant_local joined)
    with (sum_below (component_max (fst joined) (snd joined))
            (geometric_dimension u1)).
  apply Rmax_lub.
  - apply sum_below_le. intros i _. rewrite component_max_join. apply Rmax_l.
  - rewrite <- Hdim. apply sum_below_le. intros i _.
    rewrite component_max_join. apply Rmax_r.
Qed.
End JoinProcesses.

(** X4.  Joining two processes into one never changes the flow scale
    and never lowers the Courant term: [DENO] on the processes [p], [q]
    of equal dimension and on the single process that holds the vertices
    of both returns the same [NM], and a [DN] that is at most the one of
    the joined process (the sum of the component maxima is taken per
    process, so [DN] depends on the partition). *)
Theorem DENO_partition (p q : VectorField * ScalarField) :
  well_formed p -> well_formed q ->
  geometric_dimension (fst p) = geometric_dimension (fst q) ->
  exists DN NM DN',
    @DENO mpi_reductions [p; q] = Ok (DN, NM)
    /\ @DENO mpi_reductions [join_processes p q] = Ok (DN', NM)
    /\ DN <= DN'.
Proof.
  destruct p as [u1 h1], q as [u2 h2]. simpl fst. intros Hp Hq Hdim.
  set (p := (u1, h1)). set (q := (u2, h2)).
  exists (Rmax (courant_local p) (courant_local q)),
         (Rmax (flow_scale_local p) (flow_scale_local q)),
         (courant_local (join_processes p q)).
  assert (Hpq : Forall well_formed [p; q]).
  { constructor; [exact Hp | constructor; [exact Hq | constructor]]. }
  assert (Hj : Forall well_formed [join_processes p q]).
  { constructor; [|constructor].
    apply join_processes_well_formed; assumption. }
  split; [|split].
  - rewrite (DENO_run mpi_reductions [p; q] Hpq). reflexivity.
  - rewrite (DENO_run mpi_reductions [join_processes p q] Hj).
    cbn [Mpi_Max mpi_reductions map list_max fold_left].
    unfold p, q. rewrite (flow_scale_local_join u1 u2 h1 h2 Hp Hq Hdim). reflexivity.
  - apply courant_local_join; assumption.
Qed.

Lemma DENO_partition_witness :
  well_formed (rank0_field, unit_length_scale)
  /\ well_formed (rank1_field, unit_length_scale)
  /\ exists DN NM DN',
       @DENO mpi_reductions two_processes = Ok (DN, NM)
       /\ @DENO mpi_reductions
            [join_processes (rank0_field, unit_length_scale)
                            (rank1_field, unit_length_scale)] = Ok (DN', NM)
       /\ DN <= DN'.
Proof.
  pose proof two_processes_well_formed as Hwf.
  assert (H0 : well_formed (rank0_field, unit_length_scale)).
  { inversion Hwf; assumption. }
  assert (H1 : well_formed (rank1_field, unit_length_scale)).
  { inversion Hwf as [|? ? _ Hrest]. inversion Hrest; assumption. }
  split; [exact H0|]. split; [exact H1|].
  apply (DENO_partition (rank0_field, unit_length_scale)
                        (rank1_field, unit_length_scale) H0 H1).
  reflexivity.
Defined.

(** ** Stability monitor: processes without vertices *)

Lemma np_max_nonempty (a : list R) : (0 < length a)%nat -> returns (np_max a).
Proof. destruct a as [|v a]; simpl; [lia|]. intros _. eexists. reflexivity. Qed.

Lemma length_zip_with_same {A B C : Type} (f : A -> B -> C) (a : list A)
    (b : list B) (n : nat) :
  length a = n -> length b = n -> length (zip_with f a b) = n.
Proof.
  revert b n. induction a as [|x a IH]; intros [|y b] n Ha Hb; simpl in *;
    try congruence.
  destruct n as [|n]; [discriminate|]. f_equal. apply IH; congruence.
Qed.

Lemma compute_vertex_values_length (f : ScalarField) (m : Mesh) :
  length (compute_vertex_values f m) = num_vertices m.
Proof. unfold compute_vertex_values. rewrite length_map, length_seq. reflexivity. Qed.

Lemma DENO_body_returns (u_ : VectorField) (h : ScalarField) (i : nat)
    (DN : R) (mag : list R) :
  let m := function_space_mesh u_ in
  (0 < num_vertices m)%nat ->
  length mag = num_vertices m ->
  exists DN' mag',
    DENO_body u_ m (compute_vertex_values h m) (DN, mag) i = Ok (DN', mag')
    /\ length mag' = num_vertices m.
Proof.
  intros m Hnv Hmag. unfold DENO_body.
  destruct (np_max_nonempty
              (np_abs (np_div (compute_vertex_values (sub u_ i) m)
                              (compute_vertex_values h m)))) as [mx Hmx].
  { unfold np_abs, np_div. rewrite length_map.
    rewrite (length_zip_with_same _ _ _ (num_vertices m));
      auto using compute_vertex_values_length. }
  rewrite Hmx. cbn [mbind result_bind mret result_ret].
  do 2 eexists. split; [reflexivity|].
  unfold np_add, np_square.
  apply length_zip_with_same; [exact Hmag|].
  rewrite length_map. apply compute_vertex_values_length.
Qed.

Lemma DENO_loop_returns (u_ : VectorField) (h : ScalarField) (k start : nat)
    (DN : R) (mag : list R) :
  let m := function_space_mesh u_ in
  (0 < num_vertices m)%nat ->
  length mag = num_vertices m ->
  exists DN' mag',
    for_range_from (DENO_body u_ m (compute_vertex_values h m)) start k (DN, mag)
    = Ok (DN', mag')
    /\ length mag' = num_vertices m.
Proof.
  intros m Hnv. revert start DN mag.
  induction k as [|k IH]; intros start DN mag Hmag.
  - exists DN, mag. split; [reflexivity | exact Hmag].
  - cbn [for_range_from].
    destruct (DENO_body_returns u_ h start DN mag Hnv Hmag)
      as (DN1 & mag1 & Hrun & Hmag1).
    fold m in Hrun. rewrite Hrun. cbn [mbind result_bind].
    apply IH, Hmag1.
Qed.

Lemma DENO_local_returns_iff (u_ : VectorField) (h : ScalarField) :
  ((0 < num_vertices (function_space_mesh u_))%nat -> returns (DENO_local u_ h))
  /\ (num_vertices (function_space_mesh u_) = 0%nat ->
      DENO_local u_ h = Raise ValueError).
Proof.
  split.
  - intros Hnv. unfold DENO_local, for_range.
    destruct (DENO_loop_returns u_ h (geometric_dimension u_) 0 0
                (np_zeros (length (compute_vertex_values h (function_space_mesh u_))))
                Hnv) as (DN & mag & Hrun & Hmag).
    { unfold np_zeros, compute_vertex_values.
      rewrite repeat_length, length_map, length_seq. reflexivity. }
    rewrite Hrun. cbn [mbind result_bind].
    destruct (np_max_nonempty
                (np_mul (np_sqrt mag)
                        (compute_vertex_values h (function_space_mesh u_))))
      as [NM HNM].
    { unfold np_mul, np_sqrt.
      rewrite (length_zip_with_same _ _ _ (num_vertices (function_space_mesh u_)));
        [exact Hnv | rewrite length_map; exact Hmag |].
      unfold compute_vertex_values. rewrite length_map, length_seq. reflexivity. }
    rewrite HNM. eexists. reflexivity.
  - intros Hnv. unfold DENO_local, for_range, compute_vertex_values.
    rewrite Hnv. simpl.
    destruct (geometric_dimension u_) as [|k]; [reflexivity|].
    cbn [for_range_from]. unfold DENO_body, compute_vertex_values.
    rewrite Hnv. reflexivity.
Qed.

Lemma DENO_locals_returns_iff (procs : list (VectorField * ScalarField)) :
  (Forall (fun p => (0 < num_vertices (function_space_mesh (fst p)))%nat) procs ->
   returns (DENO_locals procs))
  /\ (Exists (fun p => num_vertices (function_space_mesh (fst p)) = 0%nat) procs ->
      DENO_locals procs = Raise ValueError).
Proof.
  induction procs as [|[u_ h] procs [IHok IHerr]].
  - split; [intros _; eexists; reflexivity | intros Hex; inversion Hex].
  - destruct (DENO_local_returns_iff u_ h) as [Hok Herr]. split.
    + intros Hall. inversion Hall as [|? ? Hnv Hrest]; subst.
      destruct (Hok Hnv) as [l Hl]. destruct (IHok Hrest) as [ls Hls].
      cbn [DENO_locals fst snd]. rewrite Hl. cbn [mbind result_bind].
      rewrite Hls. eexists. reflexivity.
    + intros Hex. cbn [DENO_locals fst snd].
      destruct (decide (num_vertices (function_space_mesh u_) = 0%nat)) as [H0|Hpos].
      * rewrite (Herr H0). reflexivity.
      * destruct (Hok ltac:(lia)) as [l Hl]. rewrite Hl. cbn [mbind result_bind].
        inversion Hex as [? ? Hhd|? ? Htl]; subst; [simpl in Hhd; lia|].
        rewrite (IHerr Htl). reflexivity.
Qed.

(** X5.  A process that holds no vertex raises [ValueError] in the
    lines 171-182 ([np.max] of an empty array) and never enters
    [Mpi.Max], whatever its fields and the dimension are; a process that
    holds a vertex completes these lines.  [DENO] returns exactly when
    every process holds a vertex. *)
Theorem DENO_returns_iff (Mpi : MpiFacade) (procs : list (VectorField * ScalarField)) :
  (forall u_ h, num_vertices (function_space_mesh u_) = 0%nat ->
     DENO_local u_ h = Raise ValueError)
  /\ (forall u_ h, (0 < num_vertices (function_space_mesh u_))%nat ->
      returns (DENO_local u_ h))
  /\ (returns (@DENO Mpi procs) <->
      Forall (fun p => (0 < num_vertices (function_space_mesh (fst p)))%nat) procs).
Proof.
  split; [intros u_ h; apply DENO_local_returns_iff|].
  split; [intros u_ h; apply DENO_local_returns_iff|].
  destruct (DENO_locals_returns_iff procs) as [Hok Herr]. split.
  - intros [v Hv].
    destruct (decide (Exists (fun p => num_vertices (function_space_mesh (fst p)) = 0%nat)
                        procs)) as [Hex|Hnex].
    + unfold DENO in Hv. rewrite (Herr Hex) in Hv. discriminate.
    + apply not_Exists_Forall in Hnex; [|intros p; apply _].
      eapply Forall_impl; [exact Hnex|]. simpl. intros p Hp. lia.
  - intros Hall. destruct (Hok Hall) as [ls Hls].
    unfold DENO. rewrite Hls. eexists. reflexivity.
Qed.

Lemma DENO_returns_iff_witness :
  DENO_local vertexless_field unit_length_scale = Raise ValueError
  /\ returns (DENO_local rank0_field unit_length_scale)
  /\ returns (@DENO mpi_reductions two_processes)
  /\ ~ returns (@DENO mpi_reductions
                 [(rank0_field, unit_length_scale);
                  (vertexless_field, unit_length_scale)]).
Proof.
  destruct (DENO_returns_iff mpi_reductions two_processes) as (Hempty & Hlocal & Hall).
  destruct (DENO_returns_iff mpi_reductions
              [(rank0_field, unit_length_scale);
               (vertexless_field, unit_length_scale)]) as (_ & _ & Hmixed).
  split; [|split; [|split]].
  - apply Hempty. reflexivity.
  - apply Hlocal. simpl. lia.
  - apply Hall. repeat constructor; simpl; lia.
  - intros Hret. apply Hmixed in Hret.
    inversion Hret as [|? ? _ Hrest]. inversion Hrest as [|? ? Hv _].
    simpl in Hv. lia.
Defined.

(** ** Rounding a real number to binary64 *)

(** [binary64] on a quotient of integers, by integer arithmetic alone. *)
Lemma binary64_quotient (n d : Z) :
  (0 < d)%Z ->
  let a := (Z.abs n * 2 ^ 1074)%Z in
  binary64 (IZR n / IZR d)
  = SF2Prim (binary_round_aux prec emax (n <? 0)%Z (a / d) (-1074)
               (if (a mod d =? 0)%Z then loc_Exact
                else loc_Inexact (2 * (a mod d) ?= d)%Z)).
Proof.
  intros Hd a. unfold binary64.
  assert (HdR : 0 < IZR d) by (apply IZR_lt; exact Hd).
  pose proof (Z.div_mod a d ltac:(lia)) as Hdm.
  pose proof (Z.mod_pos_bound a d Hd) as Hr.
  set (m := (a / d)%Z) in *. set (r := (a mod d)%Z) in *.
  assert (Hy : Rabs (IZR n / IZR d) * IZR (2 ^ 1074) = IZR m + IZR r / IZR d).
  { unfold Rdiv. rewrite Rabs_mult, Rabs_inv, (Rabs_pos_eq (IZR d)) by lra.
    rewrite <- abs_IZR.
    replace (IZR (Z.abs n) * / IZR d * IZR (2 ^ 1074))
      with (IZR a / IZR d) by (unfold a; rewrite mult_IZR; field; lra).
    rewrite Hdm, plus_IZR, mult_IZR. field. lra. }
  rewrite Hy.
  assert (Hfrac : 0 <= IZR r / IZR d < 1).
  { split.
    - apply Rmult_le_pos; [apply IZR_le; lia | apply Rlt_le, Rinv_0_lt_compat, HdR].
    - apply Rmult_lt_reg_r with (IZR d); [exact HdR|].
      unfold Rdiv. rewrite Rmult_assoc, Rinv_l, Rmult_1_r, Rmult_1_l by lra.
      apply IZR_lt. lia. }
  rewrite (Zfloor_eq m) by lra.
  replace (IZR m + IZR r / IZR d - IZR m) with (IZR r / IZR d) by ring.
  assert (Hsign : (if Rlt_dec (IZR n / IZR d) 0 then true else false) = (n <? 0)%Z).
  { destruct (Rlt_dec (IZR n / IZR d) 0) as [Hneg|Hpos]; destruct (Z.ltb_spec n 0) as [Hn|Hn];
      try reflexivity; exfalso.
    - apply IZR_le in Hn.
      assert (0 <= IZR n / IZR d)
        by (apply Rmult_le_pos; [exact Hn | apply Rlt_le, Rinv_0_lt_compat, HdR]).
      lra.
    - apply Hpos. apply IZR_lt in Hn.
      assert (Hinv : 0 < / IZR d) by (apply Rinv_0_lt_compat, HdR).
      unfold Rdiv. nra. }
  rewrite Hsign. f_equal. f_equal.
  assert (Hhalf : forall c, (2 * r ?= d)%Z = c ->
            match c with
            | Lt => IZR r / IZR d < 1 / 2
            | Eq => IZR r / IZR d = 1 / 2
            | Gt => 1 / 2 < IZR r / IZR d
            end).
  { intros c Hc. 
    assert (Hrd : IZR r / IZR d * IZR d = IZR r) by (field; lra).
    destruct c.
    - apply Z.compare_eq in Hc. apply (f_equal IZR) in Hc.
      rewrite mult_IZR in Hc. apply Rmult_eq_reg_r with (IZR d); [|lra]. lra.
    - rewrite Z.compare_lt_iff in Hc. apply IZR_lt in Hc.
      rewrite mult_IZR in Hc. apply Rmult_lt_reg_r with (IZR d); [exact HdR|]. lra.
    - rewrite Z.compare_gt_iff in Hc. apply IZR_lt in Hc.
      rewrite mult_IZR in Hc. apply Rmult_lt_reg_r with (IZR d); [exact HdR|]. lra. }
  destruct (Z.eqb_spec r 0) as [Hr0|Hr0].
  - rewrite Hr0. unfold Rdiv. rewrite Rmult_0_l, Rplus_0_r.
    destruct (Req_dec_T (IZR m) (IZR m)) as [_|Hne]; [reflexivity | congruence].
  - assert (Hfpos : 0 < IZR r / IZR d).
    { apply Rmult_lt_0_compat; [apply IZR_lt; lia | apply Rinv_0_lt_compat, HdR]. }
    destruct (Req_dec_T (IZR m + IZR r / IZR d) (IZR m)) as [Heq|_]; [lra|].
    specialize (Hhalf _ eq_refl).
    destruct (2 * r ?= d)%Z.
    + destruct (Rlt_dec (IZR r / IZR d) (1 / 2)) as [Hlt|_]; [lra|].
      destruct (Req_dec_T (IZR r / IZR d) (1 / 2)) as [_|Hne]; [reflexivity | lra].
    + destruct (Rlt_dec (IZR r / IZR d) (1 / 2)) as [_|Hnlt]; [reflexivity | lra].
    + destruct (Rlt_dec (IZR r / IZR d) (1 / 2)) as [Hlt|_]; [lra|].
      destruct (Req_dec_T (IZR r / IZR d) (1 / 2)) as [Heq|_]; [lra | reflexivity].
Qed.

(** One tenth and one quarter: the first is rounded, the second exact. *)
Example binary64_tenth_quarter :
  binary64 (1 / 10) = 0x1.999999999999ap-4%float
  /\ binary64 (1 / 4) = 0x1p-2%float
  /\ binary64 0 = 0%float
  /\ binary64 (-3 / 10) = (-0x1.3333333333333p-2)%float.
Proof.
  split; [|split; [|split]].
  - change (1 / 10) with (IZR 1 / IZR 10).
    rewrite binary64_quotient by lia. vm_compute. reflexivity.
  - change (1 / 4) with (IZR 1 / IZR 4).
    rewrite binary64_quotient by lia. vm_compute. reflexivity.
  - replace 0 with (IZR 0 / IZR 1) by (unfold Rdiv; ring).
    rewrite binary64_quotient by lia. vm_compute. reflexivity.
  - change (-3 / 10) with (IZR (-3) / IZR 10).
    rewrite binary64_quotient by lia. vm_compute. reflexivity.
Qed.

(** ** Runtime statistics and time step *)

(** The function after [DENO] has returned. *)
Lemma calc_runtime_stats_timestep_run (Mpi : MpiFacade) (rank : nat)
    (procs : list (VectorField * ScalarField)) (t tsp : R)
    (handles : list (list LogLine)) (Re : R) (time_control : gmap string pyobj) :
  Forall well_formed procs ->
  let DN := Mpi_Max (map courant_local procs) in
  let NM := Mpi_Max (map flow_scale_local procs) in
  @calc_runtime_stats_timestep Mpi rank procs t tsp handles Re time_control
  = (handles' ← (if decide (rank = 0%nat)
                 then write_line handles 1 (mkLogLine t tsp (DN * tsp) (NM * Re))
                 else Ok handles);
     if eq_True (time_control !! "variable_timestep")
     then
       q ← truediv (time_control !! "C_no") DN;
       r ← round_decimals_down (binary64 q) (PyInt 5);
       mret (as_float r, handles')
     else mret (tsp, handles')).
Proof.
  intros Hwf DN NM. unfold calc_runtime_stats_timestep.
  rewrite (DENO_run Mpi procs Hwf). reflexivity.
Qed.

Lemma write_line_second (handles : list (list LogLine)) (l : LogLine) :
  (1 < length handles)%nat ->
  exists f, handles !! 1%nat = Some f
            /\ write_line handles 1 l = Ok (<[1%nat := f ++ [l]]> handles).
Proof.
  intros Hlen. destruct (lookup_lt_is_Some_2 handles 1 Hlen) as [f Hf].
  exists f. split; [exact Hf|].
  unfold write_line, getitem. rewrite Hf. reflexivity.
Qed.

(** X6.  With a time control whose ['variable_timestep'] entry does not
    compare equal to [True] (a missing key included) the step size is
    returned unchanged.  The process of rank 0 appends one line
    [(t, tsp, DN*tsp, NM*Re)] to the second file handle and leaves the
    other handles as they are, and raises [IndexError] when it has fewer
    than two handles; the other processes write nothing. *)
Theorem calc_runtime_stats_timestep_fixed (rank : nat)
    (procs : list (VectorField * ScalarField)) (t tsp : R)
    (handles : list (list LogLine)) (Re : R) (time_control : gmap string pyobj) :
  Forall well_formed procs ->
  eq_True (time_control !! "variable_timestep") = false ->
  let DN := list_max (map courant_local procs) in
  let NM := list_max (map flow_scale_local procs) in
  let run := @calc_runtime_stats_timestep mpi_reductions rank procs t tsp
               handles Re time_control in
  (rank <> 0%nat -> run = Ok (tsp, handles))
  /\ (rank = 0%nat -> forall f, handles !! 1%nat = Some f ->
      run = Ok (tsp, <[1%nat := f ++ [mkLogLine t tsp (DN * tsp) (NM * Re)]]> handles))
  /\ (rank = 0%nat -> (length handles <= 1)%nat -> run = Raise IndexError).
Proof.
  intros Hwf Hfix DN NM run. subst run.
  rewrite (calc_runtime_stats_timestep_run mpi_reductions _ _ _ _ _ _ _ Hwf).
  rewrite Hfix. cbn [Mpi_Max mpi_reductions]. fold DN NM.
  split; [|split].
  - intros Hr. rewrite decide_False by exact Hr. reflexivity.
  - intros Hr f Hf. rewrite decide_True by exact Hr.
    unfold write_line, getitem. rewrite Hf. reflexivity.
  - intros Hr Hlen. rewrite decide_True by exact Hr.
    unfold write_line, getitem.
    rewrite (lookup_ge_None_2 handles 1) by lia. reflexivity.
Qed.

Lemma calc_runtime_stats_timestep_fixed_witness :
  Forall well_formed two_processes
  /\ eq_True ((∅ : gmap string pyobj) !! "variable_timestep") = false
  /\ @calc_runtime_stats_timestep mpi_reductions 1 two_processes 0 (1 / 100)
       [] 100 ∅ = Ok (1 / 100, []).
Proof.
  split; [exact two_processes_well_formed|]. split; [reflexivity|].
  apply (calc_runtime_stats_timestep_fixed 1 two_processes 0 (1 / 100) [] 100 ∅
           two_processes_well_formed); [reflexivity | lia].
Defined.




Lemma vertex_a_courant : list_max (map courant_local [vertex_a]) = 3.
Proof.
  unfold vertex_a, courant_local, component_max, max_over_vertices,
    unit_length_scale. simpl.
  rewrite (Rabs_pos_eq 3), Rabs_R0 by lra. lra.
Qed.

(** X22.  The step size of the variable mode can exceed the target.
    One process with the velocity [(3, 0)] at its one vertex gives
    [DN = 3]; for the target [C_no = 0.3] (the binary64 value
    [5404319552844595 / 2^54]) the quotient rounds to
    [0.09999999999999999], its product with [100000] rounds to [10000],
    and the call returns the step size [0.1] (the binary64 value
    [7205759403792794 / 2^56]), whose Courant number [0.1 * 3] is above
    the target. *)
Theorem calc_runtime_stats_timestep_overshoots :
  let C_no := 5404319552844595 / 18014398509481984 in
  let time_control : gmap string pyobj :=
    <["variable_timestep" := PyBool true]> (<["C_no" := PyFloat C_no]> ∅) in
  C_no = B2R 0x1.3333333333333p-2
  /\ list_max (map courant_local [vertex_a]) = 3
  /\ binary64 (C_no / 3) = 0x1.9999999999999p-4%float
  /\ exists tsp',
       fst <$> @calc_runtime_stats_timestep mpi_reductions 0 [vertex_a] 0 (1 / 100)
                 [[]; []] 100 time_control = Ok tsp'
       /\ tsp' = B2R 0x1.999999999999ap-4
       /\ tsp' = 7205759403792794 / 72057594037927936
       /\ C_no < tsp' * 3.
Proof.
  intros C_no time_control.
  assert (Hwf : Forall well_formed [vertex_a]).
  { repeat constructor; simpl; try lia. intros; unfold unit_length_scale; lra. }
  assert (Hq : binary64 (C_no / 3) = 0x1.9999999999999p-4%float).
  { unfold C_no.
    replace (5404319552844595 / 18014398509481984 / 3)
      with (IZR 5404319552844595 / IZR 54043195528445952) by (unfold Rdiv; field).
    rewrite binary64_quotient by lia. vm_compute. reflexivity. }
  assert (Htarget : C_no = B2R 0x1.3333333333333p-2).
  { unfold B2R.
    replace (Prim2SF 0x1.3333333333333p-2)
      with (S754_finite false 5404319552844595 (-54)) by (vm_compute; reflexivity).
    rewrite powerRZ_2_neg. reflexivity. }
  assert (Hstep : B2R 0x1.999999999999ap-4 = 7205759403792794 / 72057594037927936).
  { unfold B2R.
    replace (Prim2SF 0x1.999999999999ap-4)
      with (S754_finite false 7205759403792794 (-56)) by (vm_compute; reflexivity).
    rewrite powerRZ_2_neg. reflexivity. }
  split; [exact Htarget|]. split; [exact vertex_a_courant|]. split; [exact Hq|].
  exists (B2R 0x1.999999999999ap-4).
  split; [|split; [reflexivity|split; [exact Hstep|]]].
  - rewrite (calc_runtime_stats_timestep_run mpi_reductions _ _ _ _ _ _ _ Hwf).
    cbn [Mpi_Max mpi_reductions]. rewrite vertex_a_courant.
    assert (Hvar : eq_True (time_control !! "variable_timestep") = true).
    { unfold eq_True, time_control. rewrite lookup_insert_eq. simpl.
      destruct (Req_dec_T 1 1) as [_|Hne]; [reflexivity | congruence]. }
    rewrite Hvar.
    assert (HC : time_control !! "C_no" ≫= as_number = Some C_no) by reflexivity.
    unfold truediv. rewrite HC. unfold py_div.
    destruct (Req_dec_T 3 0) as [H0|_]; [lra|].
    cbn [decide_rel decide]. unfold write_line, getitem.
    cbn [lookup list_lookup mbind result_bind mret result_ret].
    rewrite Hq.
    replace (round_decimals_down 0x1.9999999999999p-4 (PyInt 5))
      with (Ok (NumFloat 0x1.999999999999ap-4)) by (vm_compute; reflexivity).
    reflexivity.
  - rewrite Hstep. unfold C_no. lra.
Qed.

Lemma max_upto_const (c : R) (n : nat) : max_upto (fun _ => c) n = c.
Proof.
  induction n as [|n IH]; simpl; [reflexivity|].
  rewrite IH. apply Rmax_left. lra.
Qed.

Lemma sum_below_zero (n : nat) : sum_below (fun _ => 0) n = 0.
Proof. induction n as [|n IH]; simpl; [reflexivity | rewrite IH; lra]. Qed.

Lemma list_max_zero (xs : list R) : Forall (fun x => x = 0) xs -> list_max xs = 0.
Proof.
  destruct xs as [|a xs]; [reflexivity|].
  intros Hall. inversion Hall as [|? ? Ha Hxs]; subst. simpl. clear Hall.
  induction Hxs as [|b xs Hb _ IH]; simpl; [reflexivity|].
  rewrite Hb, Rmax_left by lra. exact IH.
Qed.

Lemma courant_local_at_rest (u_ : VectorField) (h : ScalarField) :
  (forall i v, sub u_ i v = 0) -> courant_local (u_, h) = 0.
Proof.
  intros Hrest. unfold courant_local, component_max, max_over_vertices.
  rewrite <- (sum_below_zero (geometric_dimension u_)).
  assert (Hext : forall n,
             sum_below (fun i => max_upto (fun v => Rabs (sub u_ i v) / h v)
                                   (num_vertices (function_space_mesh u_) - 1)) n
             = sum_below (fun _ => 0) n).
  { induction n as [|n IH]; simpl; [reflexivity|]. rewrite IH. f_equal.
    rewrite (max_upto_ext _ (fun _ => 0)); [apply max_upto_const|].
    intros v _. rewrite Hrest, Rabs_R0. unfold Rdiv. ring. }
  apply Hext.
Qed.

(** X8.  In variable mode the function raises when the velocity is zero
    at every vertex of every process (the Courant term [DN] is then 0 and
    the target is divided by it), and it raises [TypeError] when
    ['C_no'] is missing from the time control or is not a number. *)
Theorem calc_runtime_stats_timestep_variable_raises (rank : nat)
    (procs : list (VectorField * ScalarField)) (t tsp : R)
    (handles : list (list LogLine)) (Re : R) (time_control : gmap string pyobj) :
  Forall well_formed procs ->
  eq_True (time_control !! "variable_timestep") = true ->
  let run := @calc_runtime_stats_timestep mpi_reductions rank procs t tsp
               handles Re time_control in
  ((forall u_ h, (u_, h) ∈ procs -> forall i v, sub u_ i v = 0) -> raises run)
  /\ (time_control !! "C_no" ≫= as_number = None ->
      (rank = 0%nat -> (1 < length handles)%nat) ->
      run = Raise TypeError).
Proof.
  intros Hwf Hvar run. subst run.
  rewrite (calc_runtime_stats_timestep_run mpi_reductions _ _ _ _ _ _ _ Hwf).
  rewrite Hvar. cbn [Mpi_Max mpi_reductions].
  set (line := mkLogLine _ _ _ _).
  split.
  - intros Hrest.
    assert (HDN : list_max (map courant_local procs) = 0).
    { apply list_max_zero. apply Forall_forall. intros x Hx.
      apply (list_elem_of_fmap_1 courant_local) in Hx as ([u_ h] & -> & Hin).
      apply courant_local_at_rest, (Hrest u_ h Hin). }
    rewrite HDN.
    destruct (if decide (rank = 0%nat) then write_line handles 1 line else Ok handles)
      as [handles'|e]; [|exists e; reflexivity].
    cbn [mbind result_bind]. unfold truediv.
    destruct (time_control !! "C_no" ≫= as_number) as [c|];
      [|exists TypeError; reflexivity].
    unfold py_div. destruct (Req_dec_T 0 0) as [_|Hne]; [|congruence].
    exists ZeroDivisionError. reflexivity.
  - intros HC Hlen.
    assert (Hw : exists handles',
               (if decide (rank = 0%nat) then write_line handles 1 line
                else Ok handles) = Ok handles').
    { destruct (decide (rank = 0%nat)) as [Hr|Hr]; [|eexists; reflexivity].
      destruct (write_line_second handles line (Hlen Hr)) as (f & _ & Hwr).
      eexists. exact Hwr. }
    destruct Hw as [handles' Hw]. rewrite Hw. cbn [mbind result_bind].
    unfold truediv. rewrite HC. reflexivity.
Qed.

Lemma calc_runtime_stats_timestep_variable_raises_witness :
  Forall well_formed two_processes
  /\ @calc_runtime_stats_timestep mpi_reductions 0 two_processes 0 (1 / 100)
       [[]; []] 100 (<["variable_timestep" := PyInt 1]> ∅)
     = Raise TypeError.
Proof.
  split; [exact two_processes_well_formed|].
  apply (calc_runtime_stats_timestep_variable_raises 0 two_processes 0 (1 / 100)
           [[]; []] 100 (<["variable_timestep" := PyInt 1]> ∅)
           two_processes_well_formed).
  - unfold eq_True. rewrite lookup_insert_eq. simpl.
    destruct (Req_dec_T 1 1) as [_|Hne]; [reflexivity | congruence].
  - reflexivity.
  - simpl. lia.
Defined.

(** ** Degrees of freedom *)

Lemma list_sum_INR (l : list nat) : list_sum (map INR l) = INR (sum_list l).
Proof.
  induction l as [|n l IH]; simpl; [reflexivity|].
  rewrite IH, plus_INR. reflexivity.
Qed.

Lemma group_dofs_total (value : list (list nat)) :
  @group_dofs mpi_reductions value = INR (sum_list (map sum_list value)).
Proof.
  unfold group_dofs.
  assert (Hacc : forall acc,
             foldl (fun dof i => dof + @Mpi_Sum mpi_reductions (map INR i)) acc value
             = acc + INR (sum_list (map sum_list value))).
  { induction value as [|i value IH]; intros acc; simpl; [lra|].
    rewrite IH, list_sum_INR, plus_INR. lra. }
  rewrite Hacc. lra.
Qed.

Lemma Calc_total_DOF_other (Mpi : MpiFacade)
    (kwargs : list (string * list (list nat))) (acc : gmap string R) (key : string) :
  key ∉ map fst kwargs ->
  foldl (fun DOFS kv => <[fst kv := @group_dofs Mpi (snd kv)]> DOFS) acc kwargs !! key
  = acc !! key.
Proof.
  revert acc. induction kwargs as [|[k v] kwargs IH]; intros acc Hkey;
    [reflexivity|].
  simpl in *. apply not_elem_of_cons in Hkey as [Hne Hkey].
  rewrite IH by exact Hkey. apply lookup_insert_ne. congruence.
Qed.

Lemma Calc_total_DOF_key (Mpi : MpiFacade)
    (kwargs : list (string * list (list nat))) (acc : gmap string R)
    (key : string) (value : list (list nat)) :
  NoDup (map fst kwargs) -> (key, value) ∈ kwargs ->
  foldl (fun DOFS kv => <[fst kv := @group_dofs Mpi (snd kv)]> DOFS) acc kwargs !! key
  = Some (@group_dofs Mpi value).
Proof.
  revert acc. induction kwargs as [|[k v] kwargs IH]; intros acc Hnd Hin;
    [inversion Hin|].
  simpl in *. apply NoDup_cons in Hnd as [Hk Hnd].
  apply elem_of_cons in Hin as [[= -> ->]|Hin].
  - rewrite Calc_total_DOF_other by exact Hk. apply lookup_insert_eq.
  - apply IH; assumption.
Qed.

(** X9.  For keyword arguments with distinct names the dictionary
    returned by [Calc_total_DOF] has exactly the given names as keys, and
    under each name the sum, over the fields of the group and over all
    processes, of the local vector sizes (0 for a group without fields);
    only the [Sum] reduction is used. *)
Theorem Calc_total_DOF_counts (kwargs : list (string * list (list nat))) :
  NoDup (map fst kwargs) ->
  (forall key value, (key, value) ∈ kwargs ->
     @Calc_total_DOF mpi_reductions kwargs !! key
     = Some (INR (sum_list (map sum_list value))))
  /\ (forall key, key ∉ map fst kwargs ->
      @Calc_total_DOF mpi_reductions kwargs !! key = None)
  /\ (forall Max Max' Sum : list R -> R,
      @Calc_total_DOF (mkMpi Max Sum) kwargs = @Calc_total_DOF (mkMpi Max' Sum) kwargs).
Proof.
  intros Hnd. split; [|split].
  - intros key value Hin. unfold Calc_total_DOF.
    rewrite (Calc_total_DOF_key mpi_reductions kwargs ∅ key value Hnd Hin).
    rewrite group_dofs_total. reflexivity.
  - intros key Hkey. unfold Calc_total_DOF.
    rewrite Calc_total_DOF_other by exact Hkey. apply lookup_empty.
  - intros Max Max' Sum. reflexivity.
Qed.

Lemma Calc_total_DOF_counts_witness :
  NoDup (map fst [("u", [[3; 4]; [1; 2]]%nat); ("p", [])])
  /\ @Calc_total_DOF mpi_reductions [("u", [[3; 4]; [1; 2]]%nat); ("p", [])] !! "u"
     = Some (INR 10)
  /\ @Calc_total_DOF mpi_reductions [("u", [[3; 4]; [1; 2]]%nat); ("p", [])] !! "p"
     = Some (INR 0).
Proof.
  assert (Hnd : NoDup (map fst [("u", [[3; 4]; [1; 2]]%nat); ("p", [])])).
  { apply (bool_decide_unpack _). vm_compute. reflexivity. }
  split; [exact Hnd|].
  destruct (Calc_total_DOF_counts _ Hnd) as [Hcount _].
  split.
  - apply (Hcount "u" [[3; 4]; [1; 2]]%nat). left.
  - apply (Hcount "p" []). right. left.
Defined.

(** ** Null space: the whole space and the failures *)

Lemma all_entries_repeat (w : list R) (c : R) :
  (forall i, (i < length w)%nat -> w !! i = Some c) -> w = repeat c (length w).
Proof.
  induction w as [|a w IH]; intros Hall; [reflexivity|].
  simpl. f_equal.
  - specialize (Hall 0%nat ltac:(simpl; lia)). simpl in Hall. congruence.
  - apply IH. intros i Hi. apply (Hall (S i)). simpl. lia.
Qed.

Lemma sum_squares_ones (n : nat) : sum_squares (repeat 1 n) = INR n.
Proof.
  induction n as [|n IH]; [reflexivity|].
  rewrite S_INR. simpl. rewrite IH. ring.
Qed.

Lemma imul_repeat (a c : R) (n : nat) : imul (repeat a n) c = repeat (a * c) n.
Proof.
  unfold imul. induction n as [|n IH]; simpl; [reflexivity | rewrite IH; reflexivity].
Qed.

(** X10.  When the pressure space owns every degree of freedom of the
    reference vector, the basis vector is the constant vector with the
    entries [1/sqrt(n)], [n] the length of the vector, whatever the
    entries of the reference vector are. *)
Theorem attach_nullspace_full_space `{VectorBackend} (Ap : Operator)
    (x_ : list R) (Q : list nat) :
  (0 < length x_)%nat ->
  (forall d, d ∈ Q -> (d < length x_)%nat) ->
  (forall i, (i < length x_)%nat -> i ∈ Q) ->
  snd <$> attach_nullspace Ap x_ Q
  = Ok [repeat (1 * (1 / sqrt (INR (length x_)))) (length x_)].
Proof.
  intros Hn Hin Hall.
  destruct (dofmap_set_spec Q 1 x_ Hin) as (w & Hrun & Hlen & Hown & _).
  assert (Hw : w = repeat 1 (length x_)).
  { rewrite <- Hlen. apply all_entries_repeat. intros i Hi.
    apply Hown, Hall. lia. }
  assert (HN : norm_l2 w = sqrt (INR (length x_))).
  { unfold norm_l2. rewrite Hw, sum_squares_ones. reflexivity. }
  assert (Hpos : 0 < sqrt (INR (length x_))).
  { apply sqrt_lt_R0, lt_0_INR, Hn. }
  unfold attach_nullspace, Vector. rewrite Hrun. cbn [mbind result_bind].
  rewrite HN. unfold py_div.
  destruct (Req_dec_T (sqrt (INR (length x_))) 0) as [H0|_]; [lra|].
  cbn [mbind result_bind mret result_ret fmap result_fmap snd VectorSpaceBasis].
  rewrite Hw, imul_repeat. reflexivity.
Qed.

Lemma attach_nullspace_full_space_witness :
  (0 < length mixed_reference)%nat
  /\ snd <$> @attach_nullspace inert_backend bare_operator mixed_reference
               [0; 1; 2; 1]%nat
     = Ok [repeat (1 * (1 / sqrt (INR 3))) 3].
Proof.
  split; [simpl; lia|].
  apply (@attach_nullspace_full_space inert_backend bare_operator mixed_reference
           [0; 1; 2; 1]%nat).
  - simpl. lia.
  - intros d Hd. simpl. repeat (apply elem_of_cons in Hd as [->|Hd]; [lia|]).
    inversion Hd.
  - intros i Hi. simpl in Hi.
    destruct i as [|[|[|i]]]; [left | right; left | right; right; left | lia].
Defined.

Lemma sum_squares_zero_iff (v : list R) :
  sum_squares v = 0 <-> Forall (fun a => a = 0) v.
Proof.
  induction v as [|a v IH]; simpl.
  - split; [constructor | reflexivity].
  - pose proof (sum_squares_nonneg v) as Hv.
    pose proof (Rle_0_sqr a) as Ha. unfold Rsqr in Ha. split.
    + intros Hs. assert (Haa : a * a = 0) by lra.
      assert (Hv0 : sum_squares v = 0) by lra.
      constructor; [|apply IH, Hv0].
      apply Rmult_integral in Haa. destruct Haa; assumption.
    + intros Hall. inversion Hall as [|? ? -> Hrest]; subst.
      rewrite (proj2 IH Hrest). ring.
Qed.

(** X11.  For a pressure space whose degrees of freedom all lie inside
    the reference vector, [attach_nullspace] raises exactly when the
    pressure space owns no degree of freedom and the reference vector has
    no non-zero entry, and then with [ZeroDivisionError] (the norm is 0.0
    and line 158 divides by it); in every other case it returns the
    basis.  This holds whatever the backend does outside a vector. *)
Theorem attach_nullspace_raises `{VectorBackend} (Ap : Operator) (x_ : list R)
    (Q : list nat) :
  Forall (fun d => (d < length x_)%nat) Q ->
  (raises (attach_nullspace Ap x_ Q) <-> Q = [] /\ Forall (fun a => a = 0) x_)
  /\ (Q = [] /\ Forall (fun a => a = 0) x_ ->
      attach_nullspace Ap x_ Q = Raise ZeroDivisionError)
  /\ (~ (Q = [] /\ Forall (fun a => a = 0) x_) ->
      returns (attach_nullspace Ap x_ Q)).
Proof.
  intros Hin.
  assert (Hzero : Q = [] /\ Forall (fun a => a = 0) x_ ->
                  attach_nullspace Ap x_ Q = Raise ZeroDivisionError).
  { intros [-> Hzero]. unfold attach_nullspace, Vector. simpl.
    unfold norm_l2. rewrite (proj2 (sum_squares_zero_iff x_) Hzero), sqrt_0.
    unfold py_div. destruct (Req_dec_T 0 0) as [_|Hne]; [reflexivity | congruence]. }
  assert (Hret : ~ (Q = [] /\ Forall (fun a => a = 0) x_) ->
                 returns (attach_nullspace Ap x_ Q)).
  { intros Hnot.
    destruct (dofmap_set_spec Q 1 x_) as (w & Hrun & Hlen & Hown & Hother).
    { intros d Hd. rewrite Forall_forall in Hin. apply Hin, Hd. }
    assert (HN : 0 < norm_l2 w).
    { apply sqrt_lt_R0. destruct Q as [|d Q].
      - injection Hrun as <-.
        pose proof (sum_squares_nonneg x_) as Hnn.
        destruct (Req_dec_T (sum_squares x_) 0) as [H0|H0]; [|lra].
        exfalso. apply Hnot. split; [reflexivity|].
        apply sum_squares_zero_iff, H0.
      - apply (sum_squares_pos w d 1); [apply Hown; left | lra]. }
    unfold attach_nullspace, Vector. rewrite Hrun. cbn [mbind result_bind].
    unfold py_div. destruct (Req_dec_T (norm_l2 w) 0) as [H0|_]; [lra|].
    eexists. reflexivity. }
  split; [|split; assumption]. split.
  - intros [e He].
    destruct (decide (Q = [])) as [HQ|HQ].
    + destruct (Req_dec_T (sum_squares x_) 0) as [H0|H0].
      * split; [exact HQ | apply sum_squares_zero_iff, H0].
      * destruct Hret as [v Hv]; [|congruence].
        intros [_ Hall]. apply H0, sum_squares_zero_iff, Hall.
    + destruct Hret as [v Hv]; [|congruence]. intros [HQ' _]. contradiction.
  - intros Hdeg. exists ZeroDivisionError. apply Hzero, Hdeg.
Qed.

Lemma attach_nullspace_raises_witness :
  @attach_nullspace inert_backend bare_operator [0; 0] [] = Raise ZeroDivisionError
  /\ returns (@attach_nullspace inert_backend bare_operator [0; 0] [1%nat]).
Proof.
  destruct (@attach_nullspace_raises inert_backend bare_operator [0; 0] [])
    as (_ & Hzero & _); [constructor|].
  destruct (@attach_nullspace_raises inert_backend bare_operator [0; 0] [1%nat])
    as (_ & _ & Hret); [repeat constructor; simpl; lia|].
  split.
  - apply Hzero. split; [reflexivity|]. repeat constructor.
  - apply Hret. intros [HQ _]. discriminate.
Defined.

(** ** History rotation: lengths, frame and repeated rotation *)

(** X12.  [update_variables] returns exactly when the velocity and
    pressure buffers have at least 3 slots and the temperature buffer at
    least 4; with a shorter buffer it raises [IndexError]. *)
Theorem update_variables_returns_iff {V : Type} (u_ p_ T_ : list loc)
    (h : @store V) :
  ((3 <= length u_)%nat /\ (3 <= length p_)%nat /\ (4 <= length T_)%nat ->
   returns (update_variables u_ p_ T_ h))
  /\ ((length u_ < 3)%nat \/ (length p_ < 3)%nat \/ (length T_ < 4)%nat ->
      update_variables u_ p_ T_ h = Raise IndexError).
Proof.
  destruct u_ as [|u0 [|u1 [|u2 u_]]];
    destruct p_ as [|p0 [|p1 [|p2 p_]]];
    destruct T_ as [|T0 [|T1 [|T2 [|T3 T_]]]];
    (split; [intros (Hu & Hp & HT); simpl in Hu, Hp, HT;
               try lia; eexists; reflexivity
            | intros Hshort; simpl in Hshort; try lia; reflexivity]).
Qed.

Lemma update_variables_returns_iff_witness :
  @update_variables nat [0; 1]%nat p_hist T_hist history_store = Raise IndexError
  /\ returns (update_variables u_hist p_hist T_hist history_store).
Proof.
  split.
  - apply (update_variables_returns_iff [0; 1]%nat p_hist T_hist history_store).
    left. simpl. lia.
  - apply (update_variables_returns_iff u_hist p_hist T_hist history_store).
    simpl. lia.
Defined.

(** X13.  A rotation writes only to the objects in slots 1 and 2 of
    velocity and pressure and in slots 1 to 3 of temperature: every other
    object, in particular any slot beyond these in a longer buffer, keeps
    its contents, also when slots share objects. *)
Theorem update_variables_frame {V : Type} (u_ p_ T_ : list loc) (h : @store V) :
  (3 <= length u_)%nat -> (3 <= length p_)%nat -> (4 <= length T_)%nat ->
  exists h',
    update_variables u_ p_ T_ h = Ok h'
    /\ forall l,
         l ∉ drop 1 (take 3 u_) ++ drop 1 (take 3 p_) ++ drop 1 (take 4 T_) ->
         h' l = h l.
Proof.
  intros Hu Hp HT.
  destruct u_ as [|u0 [|u1 [|u2 u_]]]; simpl in Hu; try lia.
  destruct p_ as [|p0 [|p1 [|p2 p_]]]; simpl in Hp; try lia.
  destruct T_ as [|T0 [|T1 [|T2 [|T3 T_]]]]; simpl in HT; try lia.
  eexists. split; [reflexivity|].
  intros l Hl. simpl in Hl. rewrite !not_elem_of_cons in Hl.
  repeat (rewrite assign_ne by intuition congruence). reflexivity.
Qed.

Lemma update_variables_frame_witness :
  (3 <= length (u_hist ++ [10%nat]))%nat
  /\ exists h',
       update_variables (u_hist ++ [10%nat]) p_hist T_hist history_store = Ok h'
       /\ h' 10%nat = 10%nat.
Proof.
  split; [simpl; lia|].
  destruct (update_variables_frame (u_hist ++ [10%nat]) p_hist T_hist history_store)
    as (h' & Hrun & Hframe); try (simpl; lia).
  exists h'. split; [exact Hrun|].
  apply Hframe. apply (bool_decide_unpack _). vm_compute. reflexivity.
Defined.

(** X14.  After three or more rotations with no new slot-0 value every
    slot of every buffer (3, 3 and 4 distinct objects) holds what slot 0
    of that buffer held at the start: the history is flushed and further
    rotations change nothing. *)
Theorem rotate_times_flushes {V : Type} (n : nat) (u_ p_ T_ : list loc)
    (h : @store V) :
  length u_ = 3%nat -> length p_ = 3%nat -> length T_ = 4%nat ->
  NoDup (u_ ++ p_ ++ T_) ->
  (3 <= n)%nat ->
  exists hn,
    rotate_times n u_ p_ T_ h = Ok hn
    /\ forall f k, let buf := buffer_of u_ p_ T_ f in
         (k < length buf)%nat -> slot hn buf k = slot h buf 0.
Proof.
  intros Hu Hp HT Hnd Hn.
  destruct u_ as [|u0 [|u1 [|u2 [|]]]]; try discriminate.
  destruct p_ as [|p0 [|p1 [|p2 [|]]]]; try discriminate.
  destruct T_ as [|T0 [|T1 [|T2 [|T3 [|]]]]]; try discriminate.
  assert (Hgoal : forall m (h : @store V),
             exists hn,
               rotate_times (m + 3) [u0; u1; u2] [p0; p1; p2] [T0; T1; T2; T3] h
               = Ok hn
               /\ contents hn [u0; u1; u2] = [h u0; h u0; h u0]
               /\ contents hn [p0; p1; p2] = [h p0; h p0; h p0]
               /\ contents hn [T0; T1; T2; T3] = [h T0; h T0; h T0; h T0]).
  { induction m as [|m IH]; intros g.
    - destruct (update_variables_contents u0 u1 u2 p0 p1 p2 T0 T1 T2 T3 g Hnd)
        as (g1 & Hr1 & Hu1 & Hp1 & HT1).
      destruct (update_variables_contents u0 u1 u2 p0 p1 p2 T0 T1 T2 T3 g1 Hnd)
        as (g2 & Hr2 & Hu2 & Hp2 & HT2).
      destruct (update_variables_contents u0 u1 u2 p0 p1 p2 T0 T1 T2 T3 g2 Hnd)
        as (g3 & Hr3 & Hu3 & Hp3 & HT3).
      exists g3. cbn [Nat.add rotate_times].
      rewrite Hr1. cbn [mbind result_bind]. rewrite Hr2. cbn [mbind result_bind].
      rewrite Hr3. cbn [mbind result_bind].
      injection Hu1 as Ha1 Hb1 Hc1. injection Hp1 as Hd1 He1 Hf1.
      injection HT1 as Hg1 Hh1 Hi1 Hj1.
      injection Hu2 as Ha2 Hb2 Hc2. injection Hp2 as Hd2 He2 Hf2.
      injection HT2 as Hg2 Hh2 Hi2 Hj2.
      split; [reflexivity|].
      rewrite Hu3, Hp3, HT3. repeat split; congruence.
    - destruct (update_variables_contents u0 u1 u2 p0 p1 p2 T0 T1 T2 T3 g Hnd)
        as (g1 & Hr1 & Hu1 & Hp1 & HT1).
      destruct (IH g1) as (gn & Hrn & Hun & Hpn & HTn).
      exists gn. cbn [Nat.add rotate_times].
      rewrite Hr1. cbn [mbind result_bind].
      split; [exact Hrn|].
      injection Hu1 as Ha1 _ _. injection Hp1 as Hd1 _ _.
      injection HT1 as Hg1 _ _ _.
      rewrite Hun, Hpn, HTn. repeat split; congruence. }
  destruct (Hgoal (n - 3)%nat h) as (hn & Hrun & Hcu & Hcp & HcT).
  replace (n - 3 + 3)%nat with n in Hrun by lia.
  exists hn. split; [exact Hrun|].
  intros f k buf Hk. subst buf. rewrite slot_contents.
  destruct f; simpl buffer_of in *.
  - rewrite Hcu. destruct k as [|[|[|k]]]; simpl in *; try reflexivity; lia.
  - rewrite Hcp. destruct k as [|[|[|k]]]; simpl in *; try reflexivity; lia.
  - rewrite HcT. destruct k as [|[|[|[|k]]]]; simpl in *; try reflexivity; lia.
Qed.

Lemma rotate_times_flushes_witness :
  (length u_hist = 3 /\ length p_hist = 3 /\ length T_hist = 4)%nat
  /\ (3 <= 5)%nat
  /\ exists hn,
       rotate_times 5 u_hist p_hist T_hist history_store = Ok hn
       /\ forall f k, let buf := buffer_of u_hist p_hist T_hist f in
            (k < length buf)%nat -> slot hn buf k = slot history_store buf 0.
Proof.
  split; [repeat split|]. split; [lia|].
  apply (rotate_times_flushes 5 u_hist p_hist T_hist history_store);
    try reflexivity; [exact history_fixture_NoDup | lia].
Defined.

(** ** Boundary evaluators: magnitude, clock, arrays and failures *)

(** X15.  On a facet the vector written by the Inflow evaluator has the
    Euclidean norm [|sample / Area / Vsc|] times the norm of the facet
    normal, hence exactly [|sample / Area / Vsc|] for a unit normal. *)
Theorem Inflow_eval_cell_magnitude {tck : Type} `{SplineEval tck}
    (self : Expression tck) (values x : list R) (c : ufc_cell) :
  (0 <= local_facet c)%Z ->
  length values = value_size Inflow_value_shape ->
  let n := cell_normal (mesh self) (index c) (local_facet c) in
  let val := sample (param self) / Area (param self) / Vsc (param self) in
  exists out,
    outcome (Inflow_eval_cell self values x c) = Ok out
    /\ norm_l2 out = Rabs val * norm_l2 [p_x n; p_y n; p_z n]
    /\ (norm_l2 [p_x n; p_y n; p_z n] = 1 -> norm_l2 out = Rabs val).
Proof.
  intros Hf Hlen n val.
  destruct values as [|a [|b [|d [|]]]]; try discriminate.
  eexists. split.
  { eval_run. rewrite (facet_nonneg c Hf). reflexivity. }
  fold n. change (splev (waveform_arg (param self)) (func (param self)))
    with (sample (param self)). fold val.
  assert (Hnorm : norm_l2 [- p_x n * val; - p_y n * val; - p_z n * val]
                  = Rabs val * norm_l2 [p_x n; p_y n; p_z n]).
  { unfold norm_l2. simpl.
    replace (- p_x n * val * (- p_x n * val)
             + (- p_y n * val * (- p_y n * val)
                + (- p_z n * val * (- p_z n * val) + 0)))
      with (val * val * (p_x n * p_x n + (p_y n * p_y n + (p_z n * p_z n + 0))))
      by ring.
    rewrite sqrt_mult_alt by nra.
    f_equal. pose proof (sqrt_Rsqr_abs val) as Hs. unfold Rsqr in Hs. exact Hs. }
  split; [exact Hnorm|]. intros Hunit. rewrite Hnorm, Hunit. ring.
Qed.

Lemma Inflow_eval_cell_magnitude_witness :
  (0 <= local_facet boundary_cell)%Z
  /\ exists out,
       outcome (Inflow_eval_cell scenario_expression [0; 0; 0] [] boundary_cell)
       = Ok out
       /\ norm_l2 out
          = Rabs (sample scenario_param / Area scenario_param / Vsc scenario_param).
Proof.
  split; [simpl; lia|].
  destruct (Inflow_eval_cell_magnitude scenario_expression [0; 0; 0] []
              boundary_cell) as (out & Hrun & _ & Hunit);
    [simpl; lia | reflexivity |].
  exists out. split; [exact Hrun|]. apply Hunit.
  unfold norm_l2. simpl.
  replace (1 * 1 + (0 * 0 + (0 * 0 + 0))) with 1 by ring. apply sqrt_1.
Defined.

Lemma waveform_arg_whole_periods {tck : Type} (p : Param tck) (k : Z) :
  waveform_arg (with_clock p (time_t p + IZR k * period p) (nm_cycle p + k))
  = waveform_arg p.
Proof. unfold waveform_arg. simpl. rewrite plus_IZR. ring. Qed.

(** X16.  Advancing the clock by [k] whole periods together with the
    cycle count leaves the Inflow and Outflow evaluations unchanged,
    calls and result; the Temperature_balloon evaluation does not depend
    on the cycle count or the period at all. *)
Theorem boundary_evaluation_whole_periods {tck : Type} `{SplineEval tck}
    (self : Expression tck) (k : Z) (values x : list R) (c : ufc_cell) :
  let p := param self in
  let later :=
    mkExpression (with_clock p (time_t p + IZR k * period p) (nm_cycle p + k))
                 (mesh self) in
  Inflow_eval_cell later values x c = Inflow_eval_cell self values x c
  /\ Outflow_eval_cell later values x c = Outflow_eval_cell self values x c
  /\ forall (period' : R) (nm' : Z),
       Temperature_balloon_eval_cell
         (mkExpression (mkParam (time_t p) period' nm' (Area p) (Vsc p) (Tsc p) (func p))
                       (mesh self)) values x c
       = Temperature_balloon_eval_cell self values x c.
Proof.
  intros p later. subst later.
  unfold Inflow_eval_cell, Outflow_eval_cell, Temperature_balloon_eval_cell.
  cbn [param mesh]. rewrite (waveform_arg_whole_periods p k).
  split; [|split]; reflexivity.
Qed.

Lemma insert_keeps_beyond (values : list R) (i j : nat) (v : R) :
  (i < j)%nat -> <[i:=v]> values !! j = values !! j.
Proof. intros Hij. apply list_lookup_insert_ne. lia. Qed.

(** X17.  The evaluators write into the array in place: on a facet and
    an array of sufficient length (3 for Inflow, 1 for the scalar ones)
    the returned array has the length of the given one and the entries
    from index 3 (Inflow) or 1 (Outflow, Temperature_balloon) onwards are
    unchanged. *)
Theorem eval_cell_array_frame {tck : Type} `{SplineEval tck}
    (self : Expression tck) (values x : list R) (c : ufc_cell) :
  (0 <= local_facet c)%Z ->
  ((3 <= length values)%nat ->
   exists out, outcome (Inflow_eval_cell self values x c) = Ok out
               /\ length out = length values
               /\ forall i, (3 <= i)%nat -> out !! i = values !! i)
  /\ ((1 <= length values)%nat ->
      (exists out, outcome (Outflow_eval_cell self values x c) = Ok out
                   /\ length out = length values
                   /\ forall i, (1 <= i)%nat -> out !! i = values !! i)
      /\ (exists out, outcome (Temperature_balloon_eval_cell self values x c) = Ok out
                      /\ length out = length values
                      /\ forall i, (1 <= i)%nat -> out !! i = values !! i)).
Proof.
  intros Hf. split.
  - intros Hlen. eval_unfold.
    cbn [mbind eval_bind mret eval_ret fst snd app].
    rewrite (facet_nonneg c Hf). cbn [mbind eval_bind mret eval_ret fst snd app].
    rewrite decide_True by lia. cbn [mbind eval_bind mret eval_ret fst snd app].
    rewrite decide_True by (rewrite length_insert; lia).
    cbn [mbind eval_bind mret eval_ret fst snd app].
    rewrite decide_True by (rewrite !length_insert; lia).
    cbn [mbind eval_bind mret eval_ret fst snd app].
    eexists. split; [reflexivity|]. split.
    + rewrite !length_insert. reflexivity.
    + intros i Hi. rewrite !insert_keeps_beyond by lia. reflexivity.
  - intros Hlen. split.
    + eval_unfold. cbn [mbind eval_bind mret eval_ret fst snd app].
      rewrite (facet_nonneg c Hf). cbn [mbind eval_bind mret eval_ret fst snd app].
      rewrite decide_True by lia. cbn [mbind eval_bind mret eval_ret fst snd app].
      eexists. split; [reflexivity|]. split.
      * rewrite length_insert. reflexivity.
      * intros i Hi. rewrite insert_keeps_beyond by lia. reflexivity.
    + eval_unfold. cbn [mbind eval_bind mret eval_ret fst snd app].
      rewrite (facet_nonneg c Hf). cbn [mbind eval_bind mret eval_ret fst snd app].
      rewrite decide_True by lia. cbn [mbind eval_bind mret eval_ret fst snd app].
      eexists. split; [reflexivity|]. split.
      * rewrite length_insert. reflexivity.
      * intros i Hi. rewrite insert_keeps_beyond by lia. reflexivity.
Qed.

Lemma eval_cell_array_frame_witness :
  (0 <= local_facet boundary_cell)%Z
  /\ exists out,
       outcome (Inflow_eval_cell scenario_expression [0; 0; 0; 8; 9] [] boundary_cell)
       = Ok out
       /\ length out = 5%nat /\ out !! 4%nat = Some 9.
Proof.
  split; [simpl; lia|].
  destruct (eval_cell_array_frame scenario_expression [0; 0; 0; 8; 9] []
              boundary_cell) as [Hin _]; [simpl; lia|].
  destruct Hin as (out & Hrun & Hlen & Hkeep); [simpl; lia|].
  exists out. split; [exact Hrun|]. split; [exact Hlen|].
  rewrite Hkeep by lia. reflexivity.
Defined.

(** X18.  Failures of the Inflow evaluator: with a negative local facet
    index it raises [AssertionError] having only created the cell, so
    neither the normal nor the spline is evaluated and the array length
    plays no role; on a facet with an array of fewer than 3 entries it
    raises [IndexError], after the spline has been evaluated. *)
Theorem Inflow_eval_cell_failures {tck : Type} `{SplineEval tck}
    (self : Expression tck) (values x : list R) (c : ufc_cell) :
  ((local_facet c < 0)%Z ->
   Inflow_eval_cell self values x c = ([CallCell (index c)], Raise AssertionError))
  /\ ((0 <= local_facet c)%Z -> (length values < 3)%nat ->
      outcome (Inflow_eval_cell self values x c) = Raise IndexError
      /\ In (CallSplev (waveform_arg (param self)))
            (calls (Inflow_eval_cell self values x c))).
Proof.
  split.
  - intros Hf. eval_run. rewrite (facet_neg c Hf). reflexivity.
  - intros Hf Hlen.
    destruct values as [|a [|b [|d values]]]; simpl in Hlen; try lia;
      (split; [eval_run; rewrite (facet_nonneg c Hf); reflexivity
              | eval_run; rewrite (facet_nonneg c Hf); simpl; auto]).
Qed.

Lemma Inflow_eval_cell_failures_witness :
  Inflow_eval_cell scenario_expression [0; 0; 0] [] interior_cell
    = ([CallCell 0], Raise AssertionError)
  /\ outcome (Inflow_eval_cell scenario_expression [0; 0] [] boundary_cell)
     = Raise IndexError.
Proof.
  split.
  - apply (Inflow_eval_cell_failures scenario_expression [0; 0; 0] [] interior_cell).
    simpl. lia.
  - apply (Inflow_eval_cell_failures scenario_expression [0; 0] [] boundary_cell);
      simpl; lia.
Defined.

(** ** Perfusion and viscous dissipation *)

(** X19.  The perfusion [PFE] is never below 0.1 and never decreases
    when the temperature rises. *)
Theorem PFE_bounded_monotone (T T' : R) :
  0.1 <= PFE T /\ (T <= T' -> PFE T <= PFE T').
Proof.
  assert (Hlow : forall s, 0.725 <= s -> 0.1 <= 6.18 * s * s - 7.39 * s + 2.21).
  { intros s Hs. nra. }
  unfold PFE. split.
  - destruct (Rle_dec 0.725 T) as [Hge|Hlt]; [apply Hlow, Hge | lra].
  - intros HTT'.
    destruct (Rle_dec 0.725 T) as [Hge|Hlt];
      destruct (Rle_dec 0.725 T') as [Hge'|Hlt']; try lra.
    + nra.
    + apply Hlow, Hge'.
Qed.

Lemma PFE_bounded_monotone_witness :
  1 / 2 <= 1 /\ PFE (1 / 2) <= PFE 1.
Proof.
  split; [lra|]. apply (PFE_bounded_monotone (1 / 2) 1). lra.
Defined.

Lemma sum_below_ext (f g : nat -> R) (n : nat) :
  (forall i, (i < n)%nat -> f i = g i) -> sum_below f n = sum_below g n.
Proof.
  induction n as [|n IH]; intros Hfg; simpl; [reflexivity|].
  rewrite IH by (intros i Hi; apply Hfg; lia).
  rewrite (Hfg n) by lia. reflexivity.
Qed.

Lemma sum_below_add (f g : nat -> R) (n : nat) :
  sum_below (fun i => f i + g i) n = sum_below f n + sum_below g n.
Proof. induction n as [|n IH]; simpl; [ring | rewrite IH; ring]. Qed.

Lemma sum_below_scal (c : R) (f : nat -> R) (n : nat) :
  sum_below (fun i => c * f i) n = c * sum_below f n.
Proof. induction n as [|n IH]; simpl; [ring | rewrite IH; ring]. Qed.

Lemma sum_below_swap (f : nat -> nat -> R) (m n : nat) :
  sum_below (fun i => sum_below (fun j => f i j) n) m
  = sum_below (fun j => sum_below (fun i => f i j) m) n.
Proof.
  induction m as [|m IH]; simpl.
  - induction n as [|n IHn]; simpl; [reflexivity | rewrite <- IHn; ring].
  - rewrite IH, <- sum_below_add. reflexivity.
Qed.

Lemma inner_scale (d : nat) (c : R) (A B : Matrix) :
  inner d (scale c A) B = c * inner d A B.
Proof.
  unfold inner, scale. rewrite <- sum_below_scal.
  apply sum_below_ext. intros i _. rewrite <- sum_below_scal.
  apply sum_below_ext. intros j _. ring.
Qed.

Lemma inner_sym_grad (d : nat) (G : Matrix) :
  inner d (sym G) G = inner d (sym G) (sym G).
Proof.
  assert (Hswap : inner d (sym G) (fun i j => G j i) = inner d (sym G) G).
  { unfold inner.
    transitivity (sum_below (fun i => sum_below (fun j => sym G j i * G j i) d) d).
    - apply sum_below_ext. intros i _. apply sum_below_ext. intros j _.
      unfold sym. field.
    - apply (sum_below_swap (fun i j => sym G j i * G j i) d d). }
  assert (Hhalf : inner d (sym G) (sym G)
                  = / 2 * (inner d (sym G) G + inner d (sym G) (fun i j => G j i))).
  { unfold inner. rewrite <- sum_below_add, <- sum_below_scal.
    apply sum_below_ext. intros i _.
    rewrite <- sum_below_add, <- sum_below_scal.
    apply sum_below_ext. intros j _. unfold sym. field. }
  rewrite Hhalf, Hswap. field.
Qed.

Lemma inner_self_nonneg (d : nat) (A : Matrix) : 0 <= inner d A A.
Proof.
  unfold inner. apply sum_below_nonneg. intros i _.
  apply sum_below_nonneg. intros j _.
  pose proof (Rle_0_sqr (A i j)) as Hq. unfold Rsqr in Hq. exact Hq.
Qed.

(** X20.  At every point the strain rate [epsilon] is a symmetric
    matrix and the source term [Qf] equals [2*Ec/Re] times the sum of its
    squared entries; for [Ec >= 0] and [Re > 0] the viscous dissipation
    is therefore never negative. *)
Theorem Qf_dissipation (d : nat) (grad_u : Matrix) (Ec Re : R) :
  (forall i j, epsilon grad_u i j = epsilon grad_u j i)
  /\ Qf d grad_u Ec Re
     = (2 * Ec) / Re * inner d (epsilon grad_u) (epsilon grad_u)
  /\ (0 <= Ec -> 0 < Re -> 0 <= Qf d grad_u Ec Re).
Proof.
  assert (HQ : Qf d grad_u Ec Re
               = (2 * Ec) / Re * inner d (epsilon grad_u) (epsilon grad_u)).
  { unfold Qf, epsilon. rewrite inner_scale, inner_sym_grad. reflexivity. }
  split; [|split; [exact HQ|]].
  - intros i j. unfold epsilon, sym. field.
  - intros HEc HRe. rewrite HQ.
    apply Rmult_le_pos; [|apply inner_self_nonneg].
    apply Rmult_le_pos; [lra|]. apply Rlt_le, Rinv_0_lt_compat, HRe.
Qed.

Lemma Qf_dissipation_witness :
  0 <= 1 / 10 /\ 0 < 100
  /\ 0 <= Qf 2 (fun i j => match i, j with O, S _ => 1 | _, _ => 0 end) (1 / 10) 100.
Proof.
  split; [lra|]. split; [lra|].
  apply (Qf_dissipation 2 (fun i j => match i, j with O, S _ => 1 | _, _ => 0 end)
           (1 / 10) 100); lra.
Defined.

(** ** Stability monitor: scaling and a finer partition *)

Lemma max_upto_scal (c : R) (g : nat -> R) (n : nat) :
  0 <= c -> max_upto (fun v => c * g v) n = c * max_upto g n.
Proof.
  intros Hc. induction n as [|n IH]; simpl; [reflexivity|].
  rewrite IH. apply RmaxRmult, Hc.
Qed.

Lemma list_max_scal (c : R) (xs : list R) :
  0 <= c -> list_max (map (fun x => c * x) xs) = c * list_max xs.
Proof.
  intros Hc. destruct xs as [|a xs]; simpl; [ring|].
  revert a. induction xs as [|b xs IH]; intros a; simpl; [reflexivity|].
  rewrite (RmaxRmult a b c Hc). apply IH.
Qed.

Lemma scale_velocity_well_formed (c : R) (p : VectorField * ScalarField) :
  well_formed p -> well_formed (scale_velocity c p).
Proof. intros Hwf. exact Hwf. Qed.

Lemma courant_local_scal (c : R) (p : VectorField * ScalarField) :
  courant_local (scale_velocity c p) = Rabs c * courant_local p.
Proof.
  destruct p as [u_ h]. unfold courant_local, scale_velocity. cbn [fst snd].
  cbn [geometric_dimension]. rewrite <- sum_below_scal.
  apply sum_below_ext. intros i _.
  unfold component_max, max_over_vertices. cbn [function_space_mesh sub].
  rewrite <- max_upto_scal by apply Rabs_pos.
  apply max_upto_ext. intros v _. rewrite Rabs_mult. unfold Rdiv. ring.
Qed.

Lemma flow_scale_local_scal (c : R) (p : VectorField * ScalarField) :
  flow_scale_local (scale_velocity c p) = Rabs c * flow_scale_local p.
Proof.
  destruct p as [u_ h]. unfold flow_scale_local, scale_velocity. cbn [fst snd].
  cbn [geometric_dimension function_space_mesh]. unfold max_over_vertices.
  rewrite <- max_upto_scal by apply Rabs_pos.
  apply max_upto_ext. intros v _.
  assert (Hsq : squares_sum
                  (mkVectorField (function_space_mesh u_) (geometric_dimension u_)
                     (fun i v => c * sub u_ i v)) (geometric_dimension u_) v
                = c * c * squares_sum u_ (geometric_dimension u_) v).
  { unfold squares_sum. cbn [sub]. rewrite <- sum_below_scal.
    apply sum_below_ext. intros i _. ring. }
  rewrite Hsq.
  assert (Hnn : 0 <= squares_sum u_ (geometric_dimension u_) v).
  { unfold squares_sum. apply sum_below_nonneg. intros i _.
    pose proof (Rle_0_sqr (sub u_ i v)) as Hq. unfold Rsqr in Hq. exact Hq. }
  rewrite sqrt_mult_alt by nra.
  pose proof (sqrt_Rsqr_abs c) as Hs. unfold Rsqr in Hs. rewrite Hs. ring.
Qed.

(** X21.  Both estimates are homogeneous in the velocity: multiplying
    the velocity field of every process by a constant [c] multiplies the
    Courant term and the flow scale returned by [DENO] by [|c|]. *)
Theorem DENO_homogeneous (c : R) (procs : list (VectorField * ScalarField)) :
  Forall well_formed procs ->
  exists DN NM,
    @DENO mpi_reductions procs = Ok (DN, NM)
    /\ @DENO mpi_reductions (map (scale_velocity c) procs)
       = Ok (Rabs c * DN, Rabs c * NM).
Proof.
  intros Hwf. do 2 eexists.
  split; [apply (DENO_run mpi_reductions procs Hwf)|].
  assert (Hwf' : Forall well_formed (map (scale_velocity c) procs)).
  { apply Forall_forall. intros p Hp.
    apply (list_elem_of_fmap_1 (scale_velocity c)) in Hp as (p0 & -> & Hp0).
    apply scale_velocity_well_formed.
    rewrite Forall_forall in Hwf. apply Hwf, Hp0. }
  rewrite (DENO_run mpi_reductions _ Hwf'). cbn [Mpi_Max mpi_reductions].
  rewrite !map_map.
  rewrite (map_ext _ (fun p => Rabs c * courant_local p) (courant_local_scal c)).
  rewrite (map_ext (fun p => flow_scale_local (scale_velocity c p))
             (fun p => Rabs c * flow_scale_local p) (flow_scale_local_scal c)).
  rewrite <- (map_map courant_local (fun x => Rabs c * x)).
  rewrite <- (map_map flow_scale_local (fun x => Rabs c * x)).
  rewrite !list_max_scal by apply Rabs_pos. reflexivity.
Qed.

Lemma DENO_homogeneous_witness :
  Forall well_formed two_processes
  /\ exists DN NM,
       @DENO mpi_reductions two_processes = Ok (DN, NM)
       /\ @DENO mpi_reductions (map (scale_velocity (-2)) two_processes)
          = Ok (Rabs (-2) * DN, Rabs (-2) * NM).
Proof.
  split; [exact two_processes_well_formed|].
  apply (DENO_homogeneous (-2) two_processes two_processes_well_formed).
Defined.

Lemma vertices_well_formed : Forall well_formed [vertex_a; vertex_b].
Proof.
  repeat constructor; simpl; try lia; intros; unfold unit_length_scale; lra.
Qed.

(** The same two vertices on two processes and on one: the Courant term
    is 4 on the finer partition and 7 on the coarser one, the flow scale
    is 4 on both. *)
Example DENO_depends_on_partition :
  @DENO mpi_reductions [vertex_a; vertex_b] = Ok (4, 4)
  /\ @DENO mpi_reductions [join_processes vertex_a vertex_b] = Ok (7, 4).
Proof.
  assert (Hj : Forall well_formed [join_processes vertex_a vertex_b]).
  { repeat constructor; simpl; try lia.
    intros v _. unfold join_scalar, unit_length_scale.
    destruct (decide (v < 1)%nat); lra. }
  rewrite (DENO_run mpi_reductions _ vertices_well_formed).
  rewrite (DENO_run mpi_reductions _ Hj).
  cbn [Mpi_Max mpi_reductions].
  unfold vertex_a, vertex_b, join_processes, courant_local, flow_scale_local,
    component_max, squares_sum, max_over_vertices, join_scalar,
    unit_length_scale. simpl.
  rewrite (Rabs_pos_eq 3), (Rabs_pos_eq 4), Rabs_R0 by lra.
  rewrite (sqrt_of_square (0 + 3 * 3 + 0 * 0) 3),
    (sqrt_of_square (0 + 0 * 0 + 4 * 4) 4) by lra.
  rewrite (Rmax_left (3 / 1) (0 / 1)), (Rmax_right (0 / 1) (4 / 1)) by lra.
  rewrite (Rmax_right (3 * 1) (4 * 1)) by lra.
  rewrite (Rmax_right (0 + 3 / 1 + 0 / 1) (0 + 0 / 1 + 4 / 1)) by lra.
  split; do 2 f_equal; lra.
Qed.
